(** * Bulk Image Generator: the bulk pipeline, the archive export and the
      response extraction of the generation client

    A shallow embedding of
    - [src/components/BulkGenerator.tsx] ([addLog], [stopGeneration],
      [handleStartBulkGeneration], [downloadAllAsZip]),
    - the generation service ([extractImageFromResponse],
      [generateImageWithGemini]),
    - [src/types.ts] ([GeneratedImage], [ExcelRow], [ProcessingStatus]),
    followed by the properties of the specification, stated on it. *)

From Stdlib Require Import Ascii String.
From stdpp Require Import base numbers list option gmap strings pretty.

Local Open Scope N_scope.

(** ** JavaScript strings

    A JavaScript string is a sequence of UTF-16 code units.  The regular
    expression of the sanitizer has no [u] flag and [String.prototype.trim]
    works on code units too, so a string is modelled as the list of its code
    units; [lit] turns an ASCII literal of the source into such a list. *)

Abbreviation jsstring := (list N).

Definition lit (s : string) : jsstring :=
  N_of_ascii <$> list_ascii_of_string s.

(** The template literal [`${n}`] of a non-negative integer. *)
Definition str_of_nat (n : nat) : jsstring := lit (pretty n).

(** A string is truthy when it is not empty. *)
Definition truthy_str (s : jsstring) : bool :=
  match s with [] => false | _ :: _ => true end.

(** [a || b] on strings. *)
Definition or_str (a b : jsstring) : jsstring :=
  if truthy_str a then a else b.

Module Char.

Definition in_range (lo hi c : N) : bool := (lo <=? c) && (c <=? hi).

Definition is_lower (c : N) : bool := in_range 97 122 c.
Definition is_upper (c : N) : bool := in_range 65 90 c.
Definition is_letter (c : N) : bool := is_lower c || is_upper c.
Definition is_digit (c : N) : bool := in_range 48 57 c.

Definition underscore : N := 95.
Definition hyphen : N := 45.
Definition space : N := 32.
Definition tab : N := 9.

(** ECMAScript [WhiteSpace] and [LineTerminator] code points: TAB, LF, VT,
    FF, CR, SP, NBSP, U+1680, U+2000..U+200A, LS, PS, U+202F, U+205F,
    U+3000 and U+FEFF.  Both the [\s] class escape and [trim] use this
    set. *)
Definition is_whitespace (c : N) : bool :=
  in_range 9 13 c || (c =? 32) || (c =? 160) || (c =? 5760)
  || in_range 8192 8202 c || (c =? 8232) || (c =? 8233) || (c =? 8239)
  || (c =? 8287) || (c =? 12288) || (c =? 65279).

End Char.

(** ** [String.prototype.trim] *)

Fixpoint trimStart (s : jsstring) : jsstring :=
  match s with
  | [] => []
  | c :: s' => if Char.is_whitespace c then trimStart s' else s
  end.

Definition trimEnd (s : jsstring) : jsstring := reverse (trimStart (reverse s)).

Definition trim (s : jsstring) : jsstring := trimEnd (trimStart s).

(** ** The regular expression [/[^a-z0-9_\-\s]/gi]

    One character class, matched against one code unit at a time. *)

Module Regex.

Inductive class_item : Type :=
| Single (c : N)
| Range (lo hi : N)
| WhiteSpaceEscape.

Record char_class : Type := CharClass {
  negated : bool;
  items : list class_item
}.

(** [Canonicalize] of a pattern without the [u] flag: with [ignoreCase] a
    code unit is replaced by its upper-case form.  Only the ASCII letters
    matter here: [Canonicalize] never maps a code unit of 128 or more to
    one below 128, and no upper-case mapping yields a white space. *)
Definition canonicalize (ignoreCase : bool) (c : N) : N :=
  if ignoreCase && Char.is_lower c then c - 32 else c.

Definition code_units (lo hi : N) : list N :=
  (λ k, lo + N.of_nat k) <$> seq 0 (N.to_nat (hi + 1 - lo)).

Definition item_matches (ignoreCase : bool) (c : N) (it : class_item) : bool :=
  match it with
  | Single a => canonicalize ignoreCase a =? canonicalize ignoreCase c
  | Range lo hi =>
      existsb (λ a, canonicalize ignoreCase a =? canonicalize ignoreCase c)
              (code_units lo hi)
  | WhiteSpaceEscape => Char.is_whitespace c
  end.

Definition class_matches (ignoreCase : bool) (cls : char_class) (c : N) : bool :=
  xorb (negated cls) (existsb (item_matches ignoreCase c) (items cls)).

(** [s.replace(/cls/g, repl)]: every matching code unit is replaced. *)
Definition replace_all (ignoreCase : bool) (cls : char_class)
    (repl : jsstring) (s : jsstring) : jsstring :=
  c ← s; if class_matches ignoreCase cls c then repl else [c].

End Regex.

(** The code units the sanitizer leaves as they are. *)
Definition keeps (c : N) : bool :=
  Char.is_letter c || Char.is_digit c || (c =? Char.underscore)
  || (c =? Char.hyphen) || Char.is_whitespace c.

(** What the sanitizer does to one code unit. *)
Definition sanitize_char (c : N) : N := if keeps c then c else Char.underscore.

(** A string that does not start with a white space. *)
Definition clean_head (s : jsstring) : Prop :=
  match s with
  | [] => True
  | c :: _ => Char.is_whitespace c = false
  end.

(** [/[^a-z0-9_\-\s]/gi] *)
Definition unsafe_chars : Regex.char_class :=
  Regex.CharClass true
    [Regex.Range 97 122; Regex.Range 48 57; Regex.Single Char.underscore;
     Regex.Single Char.hyphen; Regex.WhiteSpaceEscape].

(** [productName.replace(/[^a-z0-9_\-\s]/gi, '_').trim()] *)
Definition sanitize (productName : jsstring) : jsstring :=
  trim (Regex.replace_all true unsafe_chars (lit "_") productName).

(** [`image-${i}`] *)
Definition image_name (i : nat) : jsstring := lit "image-" ++ str_of_nat i.

(** [productName.replace(/[^a-z0-9_\-\s]/gi, '_').trim() || `image-${i}`] *)
Definition safeFileName (i : nat) (productName : jsstring) : jsstring :=
  or_str (sanitize productName) (image_name i).

(** The specification names a smaller set of characters to keep: letters,
    digits, underscore, hyphen and the space.  [safeFileName_as_specified]
    follows those words, to be compared with [safeFileName]. *)
Definition keeps_as_specified (c : N) : bool :=
  Char.is_letter c || Char.is_digit c || (c =? Char.underscore)
  || (c =? Char.hyphen) || (c =? Char.space).

Definition safeFileName_as_specified (i : nat) (productName : jsstring) : jsstring :=
  or_str
    (trim ((λ c, if keeps_as_specified c then c else Char.underscore) <$> productName))
    (image_name i).

(** ** Cell values and rows ([src/types.ts], [ExcelRow])

    A cell is a string, a number or a boolean.  Numeric cells are modelled
    by the integers and NaN; [String] prints an integer in decimal (as
    JavaScript does below 10^21). *)

Inductive number : Type :=
| NaN
| Int (z : Z).

Inductive cell : Type :=
| CellString (s : jsstring)
| CellNumber (n : number)
| CellBoolean (b : bool).

(** A row maps column names to cells; a column the row lacks reads as
    [undefined], here [None]. *)
Abbreviation ExcelRow := (gmap (list N) cell).

Definition truthy_number (n : number) : bool :=
  match n with
  | NaN => false
  | Int z => negb (z =? 0)%Z
  end.

Definition String_number (n : number) : jsstring :=
  match n with
  | NaN => lit "NaN"
  | Int z => lit (pretty z)
  end.

Definition truthy_cell (c : cell) : bool :=
  match c with
  | CellString s => truthy_str s
  | CellNumber n => truthy_number n
  | CellBoolean b => b
  end.

Definition String_cell (c : cell) : jsstring :=
  match c with
  | CellString s => s
  | CellNumber n => String_number n
  | CellBoolean b => if b then lit "true" else lit "false"
  end.

(** [String(v || d)] for a cell read [v] and a default string [d]. *)
Definition String_or (v : option cell) (d : jsstring) : jsstring :=
  match v with
  | Some c => if truthy_cell c then String_cell c else d
  | None => d
  end.

(** ** Records of [src/types.ts] *)

Record GeneratedImage : Type := mkImage {
  id : jsstring;
  url : jsstring;
  prompt : jsstring;
  fileName : jsstring;
  originalName : option jsstring;
  timestamp : N
}.

Record ProcessingStatus : Type := mkStatus {
  total : nat;
  completed : nat;
  isProcessing : bool;
  currentAction : option jsstring
}.

(** ** The generation service *)

Module Service.

Record InlineData : Type := mkInline {
  data : option jsstring;
  mimeType : option jsstring
}.

Record Part : Type := mkPart {
  text : option jsstring;
  inlineData : option InlineData
}.

Record Content : Type := mkContent { parts : option (list Part) }.

Record Candidate : Type := mkCandidate { content : option Content }.

Record Response : Type := mkResponse { candidates : option (list Candidate) }.

(** An optional string that is present and not empty. *)
Definition truthy_opt (o : option jsstring) : option jsstring :=
  match o with
  | Some (c :: s) => Some (c :: s)
  | _ => None
  end.

(** The body of [for (const part of content.parts)]. *)
Fixpoint first_inline (ps : list Part) : option jsstring :=
  match ps with
  | [] => None
  | part :: rest =>
      match inlineData part with
      | Some blob =>
          match truthy_opt (data blob) with
          | Some d =>
              let mime := default (lit "image/png") (truthy_opt (mimeType blob)) in
              Some (lit "data:" ++ mime ++ lit ";base64," ++ d)
          | None => first_inline rest
          end
      | None => first_inline rest
      end
  end.

Definition extractImageFromResponse (response : Response) : option jsstring :=
  match candidates response with
  | None | Some [] => None
  | Some (first :: _) =>
      match content first with
      | None => None
      | Some c =>
          match parts c with
          | None => None
          | Some ps => first_inline ps
          end
      end
  end.

(** In the words of the specification: the payload of a part that carries
    inline data, with its declared media type or [image/png]. *)
Definition payload (part : Part) : option jsstring :=
  blob ← inlineData part;
  d ← data blob;
  if bool_decide (d = []) then None
  else
    let declared := match mimeType blob with
                    | Some m => if bool_decide (m = []) then None else Some m
                    | None => None
                    end in
    Some (lit "data:" ++ default (lit "image/png") declared ++ lit ";base64," ++ d).

(** The parts of the first candidate, none when there is no candidate or
    the candidate has no content or no parts. *)
Definition first_parts (response : Response) : list Part :=
  match candidates response with
  | Some (first :: _) => default [] (content first ≫= parts)
  | _ => []
  end.

(** What [ai.models.generateContent] does: it rejects with an error or
    resolves with a response. *)
Inductive api_reply : Type :=
| Rejects (err : jsstring)
| Resolves (response : Response).

(** The result of an [async] function: a value, or a thrown error given
    by its text [String(err)]. *)
Inductive outcome : Type :=
| Returned (imageUrl : jsstring)
| Thrown (err : jsstring).

Definition no_image_error : jsstring :=
  lit "Error: No image generated. The model might have returned only text.".

Definition generateImageWithGemini (reply : api_reply) : outcome :=
  match reply with
  | Rejects err => Thrown err
  | Resolves response =>
      match extractImageFromResponse response with
      | Some imageUrl => if truthy_str imageUrl then Returned imageUrl
                         else Thrown no_image_error
      | None => Thrown no_image_error
      end
  end.

End Service.

(** ** The bulk generator component ([src/components/BulkGenerator.tsx]) *)

(** The values the handlers read from their closure; they do not change
    during a run. *)
Record Settings : Type := mkSettings {
  excelData : list ExcelRow;
  promptColumn : jsstring;
  filenameColumn : jsstring;
  baselinePrompt : jsstring
}.

(** What a run does, as seen from outside: the messages given to [addLog],
    the calls to the generation service and the values given to
    [setStatus]. *)
Inductive event : Type :=
| EvLog (msg : jsstring)
| EvGenerate (i : nat) (fullPrompt : jsstring)
| EvStatus (s : ProcessingStatus).

(** The state hooks and the [abortRef] of the component.  [trace] is a
    ghost field: the events of the current run, the latest first. *)
Record Component : Type := mkComponent {
  status : ProcessingStatus;
  results : list GeneratedImage;
  logs : list jsstring;
  abortRef : bool;
  trace : list event
}.

(** What surrounds the call made for row [i]: the reply of the remote
    model, the values of [crypto.randomUUID()] and [Date.now()], and whether
    the user clicks Stop while the call is in flight.  The handler runs
    without interruption between two [await]s, so a click can only fall
    there. *)
Record Surroundings : Type := mkSurroundings {
  reply : Service.api_reply;
  uuid : jsstring;
  now : N;
  stop_clicked : bool
}.

(** When React runs the updater function given to a state setter.  The
    handler continues after an [await], outside any React event.  There a
    legacy root renders synchronously inside the setter, so the updater runs
    at the call ([AtCall]); a concurrent root ([createRoot]) puts the updater
    in a queue and runs it when it renders next, after the handler has run
    on to its next [await] or to its end ([AtRender]).  Which root the
    application mounts is not part of the component. *)
Inductive scheduling : Type :=
| AtCall
| AtRender.

Record World : Type := mkWorld {
  updaters : scheduling;
  around : nat → Surroundings
}.

Definition record_event (e : event) (st : Component) : Component :=
  mkComponent (status st) (results st) (logs st) (abortRef st) (e :: trace st).

(** [setLogs(prev => [msg, ...prev].slice(0, 50))] *)
Definition addLog (msg : jsstring) (st : Component) : Component :=
  mkComponent (status st) (results st) (take 50 (msg :: logs st)) (abortRef st)
              (EvLog msg :: trace st).

Definition setStatus (f : ProcessingStatus → ProcessingStatus)
    (st : Component) : Component :=
  mkComponent (f (status st)) (results st) (logs st) (abortRef st)
              (EvStatus (f (status st)) :: trace st).

Definition setResults (f : list GeneratedImage → list GeneratedImage)
    (st : Component) : Component :=
  mkComponent (status st) (f (results st)) (logs st) (abortRef st) (trace st).

Definition set_abortRef (b : bool) (st : Component) : Component :=
  mkComponent (status st) (results st) (logs st) b (trace st).

Definition stopGeneration (st : Component) : Component :=
  if isProcessing (status st) then
    addLog (lit "Stopping generation after current item finishes...")
           (set_abortRef true st)
  else st.

(** [prev => ({ ...prev, completed: prev.completed + 1 })] *)
Definition one_more (prev : ProcessingStatus) : ProcessingStatus :=
  mkStatus (total prev) (completed prev + 1) (isProcessing prev)
           (currentAction prev).

(** [prev => ({ ...prev, currentAction: action })] *)
Definition with_action (action : jsstring) (prev : ProcessingStatus)
    : ProcessingStatus :=
  mkStatus (total prev) (completed prev) (isProcessing prev) (Some action).

(** [prev => ({ ...prev, isProcessing: false, currentAction: action })] *)
Definition finished (action : jsstring) (prev : ProcessingStatus)
    : ProcessingStatus :=
  mkStatus (total prev) (completed prev) false (Some action).

(** [String(row[promptColumn] || '')] *)
Definition productPrompt (cfg : Settings) (row : ExcelRow) : jsstring :=
  String_or (row !! promptColumn cfg) [].

(** [String(row[filenameColumn] || `image-${i}`)] *)
Definition productName (cfg : Settings) (i : nat) (row : ExcelRow) : jsstring :=
  String_or (row !! filenameColumn cfg) (image_name i).

(** [baselinePrompt ? `${baselinePrompt}. ${productPrompt}` : productPrompt] *)
Definition fullPrompt (baseline rowPrompt : jsstring) : jsstring :=
  if truthy_str baseline then baseline ++ lit ". " ++ rowPrompt else rowPrompt.

Definition newImage (w : Surroundings) (imageUrl full : jsstring) (i : nat)
    (name : jsstring) : GeneratedImage :=
  mkImage (uuid w) imageUrl full (safeFileName i name) (Some name) (now w).

(** The body of the [for] loop after the check of [abortRef].  The updaters
    used here do not read anything but [prev], so their result is the same
    whenever React runs them. *)
Definition iteration (cfg : Settings) (w : World) (i : nat) (row : ExcelRow)
    (st : Component) : Component :=
  let prompt := productPrompt cfg row in
  let name := productName cfg i row in
  if negb (truthy_str (trim prompt)) then
    setStatus one_more
      (addLog (lit "Skipping row " ++ str_of_nat (i + 1) ++ lit ": Empty prompt") st)
  else
    let full := fullPrompt (baselinePrompt cfg) prompt in
    let st := setStatus (with_action (lit "Generating: " ++ name)) st in
    let st := record_event (EvGenerate i full) st in
    let st := if stop_clicked (around w i) then stopGeneration st else st in
    let st :=
      match Service.generateImageWithGemini (reply (around w i)) with
      | Service.Returned imageUrl =>
          addLog (lit "Success: " ++ name)
            (setResults (λ prev, prev ++ [newImage (around w i) imageUrl full i name]) st)
      | Service.Thrown err =>
          addLog (lit "Failed row " ++ str_of_nat (i + 1) ++ lit " (" ++ name
                  ++ lit "): " ++ err) st
      end in
    setStatus one_more st.

(** [for (let i = 0; i < excelData.length; i++)], from index [i] on, over
    the rows that are left. *)
Fixpoint loop (cfg : Settings) (w : World) (i : nat) (rows : list ExcelRow)
    (st : Component) : Component :=
  match rows with
  | [] => st
  | row :: rest =>
      if abortRef st then addLog (lit "Process stopped by user.") st
      else loop cfg w (S i) rest (iteration cfg w i row st)
  end.

(** The last updater,
    [prev => ({ ...prev, isProcessing: false,
                currentAction: abortRef.current ? 'Stopped' : 'Completed!' })]:
    it reads [abortRef.current] when it runs; the statement after the call
    of [setStatus] is [abortRef.current = false]. *)
Definition final_update (abortRef_current : bool) : ProcessingStatus → ProcessingStatus :=
  finished (if abortRef_current then lit "Stopped" else lit "Completed!").

(** The handler.  The trace of the run starts empty. *)
Definition handleStartBulkGeneration (cfg : Settings) (w : World)
    (st : Component) : Component :=
  if (length (excelData cfg) =? 0)%nat || negb (truthy_str (promptColumn cfg))
     || negb (truthy_str (filenameColumn cfg))
  then st
  else
    let st := mkComponent (status st) (results st) (logs st) false [] in
    let st := setStatus (λ _, mkStatus (length (excelData cfg)) 0 true None) st in
    let st := setResults (λ _, []) st in
    let st := addLog (lit "Starting bulk generation...") st in
    let st := loop cfg w 0 (excelData cfg) st in
    match updaters w with
    | AtCall =>
        set_abortRef false (setStatus (final_update (abortRef st)) st)
    | AtRender =>
        let st := set_abortRef false st in
        setStatus (final_update (abortRef st)) st
    end.

(** ** Notions used to state the properties of a run *)

(** A call to the generation service is made for the row. *)
Definition in_flight (cfg : Settings) (row : ExcelRow) : bool :=
  truthy_str (trim (productPrompt cfg row)).

(** The user clicks Stop while the call for row [i] is in flight. *)
Definition stops (cfg : Settings) (w : World) (i : nat) (row : ExcelRow) : bool :=
  in_flight cfg row && stop_clicked (around w i).

(** The index of the first row during which Stop is clicked, among [rows]
    numbered from [i]. *)
Fixpoint first_stop (cfg : Settings) (w : World) (i : nat) (rows : list ExcelRow)
    : option nat :=
  match rows with
  | [] => None
  | row :: rest =>
      if stops cfg w i row then Some i else first_stop cfg w (S i) rest
  end.

(** The rows processed one after the other, with no check of [abortRef]. *)
Fixpoint iterate (cfg : Settings) (w : World) (i : nat) (rows : list ExcelRow)
    (st : Component) : Component :=
  match rows with
  | [] => st
  | row :: rest => iterate cfg w (S i) rest (iteration cfg w i row st)
  end.

(** The same world with nobody clicking Stop. *)
Definition quiet (w : World) : World :=
  mkWorld (updaters w)
    (λ i, mkSurroundings (reply (around w i)) (uuid (around w i))
                         (now (around w i)) false).

(** The values of [completed] in the statuses of a trace, the messages
    logged and the rows for which a call was made, the latest first. *)
Definition counts (tr : list event) : list nat :=
  omap (λ e, match e with EvStatus s => Some (completed s) | _ => None end) tr.

Definition logged (tr : list event) : list jsstring :=
  omap (λ e, match e with EvLog msg => Some msg | _ => None end) tr.

Definition calls (tr : list event) : list nat :=
  omap (λ e, match e with EvGenerate i _ => Some i | _ => None end) tr.

Definition statuses (tr : list event) : list ProcessingStatus :=
  omap (λ e, match e with EvStatus s => Some s | _ => None end) tr.

(** A list of counter values, the latest first, in which each value is the
    one before it or one more. *)
Fixpoint climbs (l : list nat) : Prop :=
  match l with
  | a :: (b :: _) as older => (a = b ∨ a = S b) ∧ climbs older
  | _ => True
  end.

(** How many times the counter arrives at [n], coming from another value. *)
Fixpoint arrivals (n : nat) (l : list nat) : nat :=
  match l with
  | a :: (b :: _) as older =>
      (if bool_decide (a = n ∧ b ≠ n) then 1 else 0)%nat + arrivals n older
  | _ => 0%nat
  end.

(** The result the iteration on a row appends, if any. *)
Definition produced (cfg : Settings) (w : World) (i : nat) (row : ExcelRow)
    : list GeneratedImage :=
  if in_flight cfg row then
    match Service.generateImageWithGemini (reply (around w i)) with
    | Service.Returned imageUrl =>
        [newImage (around w i) imageUrl
           (fullPrompt (baselinePrompt cfg) (productPrompt cfg row)) i
           (productName cfg i row)]
    | Service.Thrown _ => []
    end
  else [].

(** The results of the rows numbered from [i]. *)
Fixpoint produced_all (cfg : Settings) (w : World) (i : nat) (rows : list ExcelRow)
    : list GeneratedImage :=
  match rows with
  | [] => []
  | row :: rest => produced cfg w i row ++ produced_all cfg w (S i) rest
  end.

(** The rows for which a call is made, in the order of the calls. *)
Fixpoint called (cfg : Settings) (i : nat) (rows : list ExcelRow) : list nat :=
  match rows with
  | [] => []
  | row :: rest => (if in_flight cfg row then [i] else []) ++ called cfg (S i) rest
  end.

(** The settings with another sheet. *)
Definition with_rows (cfg : Settings) (rows : list ExcelRow) : Settings :=
  mkSettings rows (promptColumn cfg) (filenameColumn cfg) (baselinePrompt cfg).

(** The component when the loop starts. *)
Definition started (cfg : Settings) (st : Component) : Component :=
  addLog (lit "Starting bulk generation...")
    (setResults (λ _, [])
       (setStatus (λ _, mkStatus (length (excelData cfg)) 0 true None)
          (mkComponent (status st) (results st) (logs st) false []))).

(** The trace of a component agrees with its status: every status set has
    the total [n], the latest one is the current one, the first one has
    [completed = 0], and the counter climbs. *)
Definition tracked (n : nat) (st : Component) : Prop :=
  total (status st) = n
  ∧ Forall (λ s, total s = n) (statuses (trace st))
  ∧ head (counts (trace st)) = Some (completed (status st))
  ∧ last (counts (trace st)) = Some 0%nat
  ∧ climbs (counts (trace st)).

(** ** Archive export ([downloadAllAsZip]) *)

Module Archive.

(** [usedNames] is created by the object literal [{}]: its own properties
    are the counters, and a name it does not own is looked up in
    [Object.prototype]. *)
Inductive property : Type :=
| Undefined
| Own (n : number)
| PrototypeFunction (name : jsstring)
| PrototypeObject.

(** The function-valued properties of [Object.prototype]. *)
Definition prototype_functions : list jsstring :=
  lit <$> ["constructor"; "hasOwnProperty"; "isPrototypeOf";
           "propertyIsEnumerable"; "toLocaleString"; "toString"; "valueOf";
           "__defineGetter__"; "__defineSetter__"; "__lookupGetter__";
           "__lookupSetter__"]%string.

(** The accessor property [__proto__] of [Object.prototype]. *)
Definition proto_accessor : jsstring := lit "__proto__".

(** [usedNames[key]] *)
Definition get (usedNames : gmap (list N) number) (key : jsstring) : property :=
  match usedNames !! key with
  | Some n => Own n
  | None =>
      if bool_decide (key = proto_accessor) then PrototypeObject
      else if bool_decide (key ∈ prototype_functions) then PrototypeFunction key
      else Undefined
  end.

(** [usedNames[key] = n]: the setter of [__proto__] ignores a number. *)
Definition set (usedNames : gmap (list N) number) (key : jsstring) (n : number)
    : gmap (list N) number :=
  if bool_decide (key = proto_accessor) then usedNames else <[key := n]> usedNames.

Definition truthy (p : property) : bool :=
  match p with
  | Undefined => false
  | Own n => truthy_number n
  | PrototypeFunction _ | PrototypeObject => true
  end.

(** [ToNumber]: a function or a plain object converts to NaN. *)
Definition to_number (p : property) : number :=
  match p with
  | Own n => n
  | Undefined | PrototypeFunction _ | PrototypeObject => NaN
  end.

(** [n + 1] *)
Definition succ (n : number) : number :=
  match n with
  | NaN => NaN
  | Int z => Int (z + 1)
  end.

(** [`${p}`] *)
Definition to_string (p : property) : jsstring :=
  match p with
  | Undefined => lit "undefined"
  | Own n => String_number n
  | PrototypeFunction name => lit "function " ++ name ++ lit "() { [native code] }"
  | PrototypeObject => lit "[object Object]"
  end.

(** The renaming step of the [forEach] callback: the new [usedNames] and
    the name the entry gets. *)
Definition rename (usedNames : gmap (list N) number) (fileName : jsstring)
    : gmap (list N) number * jsstring :=
  if truthy (get usedNames fileName) then
    let usedNames := set usedNames fileName (succ (to_number (get usedNames fileName))) in
    (usedNames, fileName ++ lit "_" ++ to_string (get usedNames fileName))
  else
    (set usedNames fileName (Int 1), fileName).

(** [s.split(sep)] for a one-character separator. *)
Fixpoint split (sep : N) (s : jsstring) : list jsstring :=
  match s with
  | [] => [[]]
  | c :: s' =>
      if c =? sep then [] :: split sep s'
      else match split sep s' with
           | piece :: pieces => (c :: piece) :: pieces
           | [] => [[c]]
           end
  end.

(** [img.url.split(',')[1]] *)
Definition base64Data (img : GeneratedImage) : option jsstring :=
  split 44 (url img) !! 1%nat.

(** One call [folder.file(name, data, { base64: true })]. *)
Record entry : Type := mkEntry {
  entryName : jsstring;
  entryData : option jsstring
}.

(** [results.forEach(...)], with [usedNames] as it stands. *)
Fixpoint forEach (usedNames : gmap (list N) number) (results : list GeneratedImage)
    : list entry :=
  match results with
  | [] => []
  | img :: rest =>
      let '(usedNames, name) := rename usedNames (fileName img) in
      mkEntry (name ++ lit ".png") (base64Data img) :: forEach usedNames rest
  end.

(** The entries put in the archive, in the order of the calls; [None] when
    the handler returns before it builds an archive. *)
Definition downloadAllAsZip (results : list GeneratedImage) : option (list entry) :=
  if (length results =? 0)%nat then None else Some (forEach ∅ results).

(** A name that [Object.prototype] has a property for. *)
Definition inherited (name : jsstring) : Prop :=
  name = proto_accessor ∨ name ∈ prototype_functions.

(** The policy in the words of the specification, to be compared with
    [forEach]: with [k - 1] earlier results of the same file name, the
    name is kept when [k = 1] and becomes [<fileName>_<k>] otherwise. *)
Definition seen (name : jsstring) (earlier : list jsstring) : nat :=
  length (filter (λ other, other = name) earlier).

Definition specified_name (earlier : list jsstring) (name : jsstring) : jsstring :=
  match seen name earlier with
  | O => name
  | S k => name ++ lit "_" ++ str_of_nat (S (S k))
  end.

Fixpoint specified_names (earlier names : list jsstring) : list jsstring :=
  match names with
  | [] => []
  | name :: rest =>
      (specified_name earlier name ++ lit ".png")
      :: specified_names (name :: earlier) rest
  end.

(** [usedNames] holds, for each name, how many results had it so far. *)
Definition counting (usedNames : gmap (list N) number) (earlier : list jsstring)
    : Prop :=
  ∀ name, usedNames !! name
          = match seen name earlier with
            | O => None
            | S k => Some (Int (Z.of_nat (S k)))
            end.

End Archive.

(** ** A sheet, a world and a component to run the handler on *)

Module Demo.

(** A row [{ sku: name, desc: prompt }]. *)
Definition row (name prompt : string) : ExcelRow :=
  <[lit "sku" := CellString (lit name)]>
    (<[lit "desc" := CellString (lit prompt)]> ∅).

(** Prompt column [desc], file name column [sku]. *)
Definition settings (rows : list ExcelRow) : Settings :=
  mkSettings rows (lit "desc") (lit "sku") (lit "studio lighting").

(** A response with a text part and then an image. *)
Definition response : Service.Response :=
  Service.mkResponse (Some
    [Service.mkCandidate (Some (Service.mkContent (Some
       [Service.mkPart (Some (lit "Here it is")) None;
        Service.mkPart None
          (Some (Service.mkInline (Some (lit "AAAA")) None))])))]).

(** The remote model always answers with [response]; Stop is clicked
    during the row [stop_at], if any. *)
Definition world (sched : scheduling) (stop_at : option nat) : World :=
  mkWorld sched
    (λ i, mkSurroundings (Service.Resolves response) (lit "uuid-" ++ str_of_nat i)
                         (N.of_nat i) (bool_decide (stop_at = Some i))).

(** The component as it is mounted. *)
Definition idle : Component :=
  mkComponent (mkStatus 0 0 false None) [] [] false [].

Definition two_rows : list ExcelRow := [row "A1" "a mug"; row "B2" "a hat"].

(** The sheet of the scenario of the specification. *)
Definition three_rows : list ExcelRow :=
  [row "A1" "a mug"; row "A1" ""; row "B2" "a hat"].

(** A result with the given file name. *)
Definition image (name : string) : GeneratedImage :=
  mkImage (lit "uuid") (lit "data:image/png;base64,AAAA") (lit "a prompt")
          (lit name) (Some (lit name)) 0.

(** The run on [two_rows] with Stop clicked during the row [stop_at]. *)
Definition cancelled (sched : scheduling) (stop_at : nat) : Component :=
  handleStartBulkGeneration (settings two_rows) (world sched (Some stop_at)) idle.

End Demo.

(** ** Spreadsheet upload ([handleFileUpload]) *)

Module Upload.

(** [hay.startsWith(needle)] and [hay.includes(needle)] *)
Fixpoint startsWith (hay needle : jsstring) : bool :=
  match needle, hay with
  | [], _ => true
  | _ :: _, [] => false
  | c :: needle', d :: hay' => (c =? d) && startsWith hay' needle'
  end.

Fixpoint includes (hay needle : jsstring) : bool :=
  match hay with
  | [] => startsWith [] needle
  | _ :: hay' => startsWith hay needle || includes hay' needle
  end.

(** What becomes of the file: the reader fails and [onload] is never
    called, or the spreadsheet library throws on the bytes, or it gives the
    rows of the first sheet; [firstKeys] is what [Object.keys(data[0])]
    returns, read only when there is a row. *)
Inductive parse_result : Type :=
| Unread
| ParseThrows
| Parsed (data : list ExcelRow) (firstKeys : list jsstring).

(** [e.target.files?.[0]]: no file, or a file with its name and what
    parsing it gives. *)
Inductive chosen : Type :=
| NoFile
| File (name : jsstring) (parse : parse_result).

(** The state hooks of the data source.  A column is [None] when a setter
    was given [undefined]. *)
Record Sheet : Type := mkSheet {
  sheetData : list ExcelRow;
  headers : list jsstring;
  promptCol : option jsstring;
  filenameCol : option jsstring
}.

Section WithToLowerCase.

(** [String.prototype.toLowerCase], which follows the Unicode tables. *)
Variable toLowerCase : jsstring → jsstring.

(** [h => h.toLowerCase().includes('name') || h.toLowerCase().includes('sku')
          || h.toLowerCase().includes('id')] *)
Definition name_like (h : jsstring) : bool :=
  includes (toLowerCase h) (lit "name") || includes (toLowerCase h) (lit "sku")
  || includes (toLowerCase h) (lit "id").

(** [extractedHeaders.find(...) || extractedHeaders[0]] *)
Definition default_filename (extractedHeaders : list jsstring) : option jsstring :=
  match List.find name_like extractedHeaders with
  | Some h => if truthy_str h then Some h else extractedHeaders !! 0%nat
  | None => extractedHeaders !! 0%nat
  end.

Definition handleFileUpload (file : chosen) (sheet : Sheet) (st : Component)
    : Sheet * Component :=
  match file with
  | NoFile | File _ Unread => (sheet, st)
  | File name ParseThrows =>
      (sheet,
       addLog (lit "Error parsing Excel file. Please ensure it is a valid .xlsx or .csv") st)
  | File name (Parsed data extractedHeaders) =>
      if (0 <? length data)%nat then
        (mkSheet data extractedHeaders (extractedHeaders !! 0%nat)
                 (default_filename extractedHeaders),
         addLog (lit "Loaded " ++ str_of_nat (length data) ++ lit " rows from " ++ name) st)
      else (sheet, st)
  end.

End WithToLowerCase.

(** The values [handleStartBulkGeneration] finds in its closure.  An
    [undefined] column stops the handler at its guard like the empty
    string, which stands for it here. *)
Definition settings (sheet : Sheet) (baseline : jsstring) : Settings :=
  mkSettings (sheetData sheet) (default [] (promptCol sheet))
             (default [] (filenameCol sheet)) baseline.

(** The Reset button: [setExcelData([]); setResults([])]. *)
Definition reset (sheet : Sheet) (st : Component) : Sheet * Component :=
  (mkSheet [] (headers sheet) (promptCol sheet) (filenameCol sheet),
   setResults (λ _, []) st).

(** Lower case for the ASCII letters, to run the handler on ASCII headers. *)
Definition ascii_lower (s : jsstring) : jsstring :=
  (λ c, if Char.is_upper c then c + 32 else c) <$> s.

End Upload.

(** ** The image editor ([ImageEditor], [fileToBase64],
       [editImageWithGemini]) *)

Module Editor.

(** A thrown value, seen through [err.message]: [None] when it has no
    message (a [ProgressEvent] of the file reader, say). *)
Record Thrown : Type := mkThrown { message : option jsstring }.

(** What [FileReader.readAsDataURL] ends with. *)
Inductive read_outcome : Type :=
| ReadFails
| ReadGives (result : jsstring).

Record File : Type := mkFile {
  type : jsstring;
  reading : read_outcome
}.

(** The result of [fileToBase64]: the promise is rejected, or resolved with
    [result.split(',')[1]], which is [undefined] when there is no comma. *)
Inductive base64_outcome : Type :=
| Rejected (err : Thrown)
| Resolved (base64 : option jsstring).

Definition fileToBase64 (file : File) : base64_outcome :=
  match reading file with
  | ReadFails => Rejected (mkThrown None)
  | ReadGives result => Resolved (Archive.split 44 result !! 1%nat)
  end.

(** The request [editImageWithGemini] sends. *)
Record Request : Type := mkRequest {
  imageBase64 : option jsstring;
  mimeType : jsstring;
  instruction : jsstring
}.

(** What [ai.models.generateContent] does with it. *)
Inductive api_reply : Type :=
| Rejects (err : Thrown)
| Resolves (response : Service.Response).

Inductive outcome : Type :=
| Returned (imageUrl : jsstring)
| Throws (err : Thrown).

Definition no_image : Thrown :=
  mkThrown (Some (lit "No image generated. The model might have returned only text.")).

Definition editImageWithGemini (reply : api_reply) : outcome :=
  match reply with
  | Rejects err => Throws err
  | Resolves response =>
      match Service.extractImageFromResponse response with
      | Some imageUrl => if truthy_str imageUrl then Returned imageUrl
                         else Throws no_image
      | None => Throws no_image
      end
  end.

(** The state hooks of the editor. *)
Record State : Type := mkState {
  sourceImage : option jsstring;
  sourceFile : option File;
  generatedImage : option jsstring;
  prompt : jsstring;
  isProcessing : bool;
  error : option jsstring
}.

(** [err.message || "Failed to generate image. Please try again."] *)
Definition shown_error (err : Thrown) : jsstring :=
  match message err with
  | Some (c :: m) => c :: m
  | _ => lit "Failed to generate image. Please try again."
  end.

(** [handleGenerate], run to its end with no other handler in between: the
    new state and the request sent, if any. *)
Definition handleGenerate (reply : api_reply) (st : State)
    : State * option Request :=
  match sourceFile st with
  | None => (st, None)
  | Some file =>
      if negb (truthy_str (trim (prompt st))) then (st, None)
      else
        match fileToBase64 file with
        | Rejected err =>
            (mkState (sourceImage st) (sourceFile st) (generatedImage st)
                     (prompt st) false (Some (shown_error err)), None)
        | Resolved base64 =>
            let request := mkRequest base64 (type file) (prompt st) in
            match editImageWithGemini reply with
            | Returned resultUrl =>
                (mkState (sourceImage st) (sourceFile st) (Some resultUrl)
                         (prompt st) false None, Some request)
            | Throws err =>
                (mkState (sourceImage st) (sourceFile st) (generatedImage st)
                         (prompt st) false (Some (shown_error err)), Some request)
            end
        end
  end.


End Editor.

(** ** Notions used to state the properties of the archive *)

(** The name of the [c]-th later result of the same file name. *)
Definition numbered (name : jsstring) (c : nat) : jsstring :=
  match c with
  | O => name
  | S k => name ++ lit "_" ++ str_of_nat (S (S k))
  end.


(** The calls of a trace with the prompts sent, the latest first. *)
Definition requests (tr : list event) : list (nat * jsstring) :=
  omap (λ e, match e with EvGenerate i full => Some (i, full) | _ => None end) tr.

(** The call the iteration on row [i] makes, if any: the row has a prompt,
    and what is sent is the prompt composed with the baseline. *)
Definition request_of (cfg : Settings) (i : nat) (row : ExcelRow)
    : option (nat * jsstring) :=
  if truthy_str (trim (productPrompt cfg row)) then
    Some (i, fullPrompt (baselinePrompt cfg) (productPrompt cfg row))
  else None.

(** The log of a component is the last 50 of the messages of its trace and
    of the log [before] it. *)
Definition log_kept (before : list jsstring) (st : Component) : Prop :=
  logs st = take 50 (logged (trace st) ++ before).

(** * Properties *)

(** ** Characters and the character class *)

Lemma in_range_spec lo hi c : Char.in_range lo hi c = true ↔ lo ≤ c ≤ hi.
Proof. unfold Char.in_range. rewrite andb_true_iff, !N.leb_le. done. Qed.

Lemma elem_of_code_units lo hi a :
  a ∈ Regex.code_units lo hi ↔ lo ≤ a ≤ hi.
Proof.
  unfold Regex.code_units. rewrite list_elem_of_fmap. split.
  - intros (k & -> & Hk). apply elem_of_seq in Hk. lia.
  - intros H. exists (N.to_nat (a - lo)). split; [lia|].
    apply elem_of_seq. lia.
Qed.

Lemma existsb_code_units (f : N → bool) lo hi :
  existsb f (Regex.code_units lo hi) = true ↔ ∃ a, lo ≤ a ≤ hi ∧ f a = true.
Proof.
  rewrite existsb_exists. split; intros (a & Ha & Hf); exists a; split; try done.
  - apply elem_of_code_units, list_elem_of_In, Ha.
  - apply list_elem_of_In, elem_of_code_units, Ha.
Qed.

Lemma is_lower_spec c : Char.is_lower c = true ↔ 97 ≤ c ≤ 122.
Proof. apply in_range_spec. Qed.

Lemma is_lower_false c : Char.is_lower c = false ↔ ¬ (97 ≤ c ≤ 122).
Proof. rewrite <- is_lower_spec. by destruct (Char.is_lower c). Qed.

Lemma canonicalize_lower c :
  Char.is_lower c = true → Regex.canonicalize true c = c - 32.
Proof. intros H. unfold Regex.canonicalize. by rewrite H. Qed.

Lemma canonicalize_other c :
  Char.is_lower c = false → Regex.canonicalize true c = c.
Proof. intros H. unfold Regex.canonicalize. by rewrite H. Qed.

Lemma letter_range_matches c :
  Regex.item_matches true c (Regex.Range 97 122) = Char.is_letter c.
Proof.
  apply Bool.eq_iff_eq_true. cbn [Regex.item_matches].
  rewrite existsb_code_units. unfold Char.is_letter, Char.is_upper.
  rewrite orb_true_iff, in_range_spec.
  destruct (Char.is_lower c) eqn:Hc.
  - rewrite (canonicalize_lower c Hc). apply is_lower_spec in Hc. split; [auto|].
    intros _. exists c. split; [lia|].
    rewrite canonicalize_lower by (apply is_lower_spec; lia). apply N.eqb_refl.
  - rewrite (canonicalize_other c Hc). apply is_lower_false in Hc. split.
    + intros (a & Ha & Heq). apply N.eqb_eq in Heq.
      rewrite canonicalize_lower in Heq by (apply is_lower_spec; lia). right. lia.
    + intros [?|Hu]; [done|]. exists (c + 32). split; [lia|].
      rewrite canonicalize_lower by (apply is_lower_spec; lia). apply N.eqb_eq. lia.
Qed.

Lemma digit_range_matches c :
  Regex.item_matches true c (Regex.Range 48 57) = Char.is_digit c.
Proof.
  apply Bool.eq_iff_eq_true. cbn [Regex.item_matches].
  rewrite existsb_code_units. unfold Char.is_digit. rewrite in_range_spec.
  split.
  - intros (a & Ha & Heq). apply N.eqb_eq in Heq.
    rewrite (canonicalize_other a) in Heq by (apply is_lower_false; lia).
    destruct (Char.is_lower c) eqn:Hc.
    + rewrite (canonicalize_lower c Hc) in Heq. apply is_lower_spec in Hc. lia.
    + rewrite (canonicalize_other c Hc) in Heq. lia.
  - intros Hd. exists c. split; [done|]. apply N.eqb_refl.
Qed.

Lemma single_matches a c :
  Char.is_letter a = false →
  Regex.item_matches true c (Regex.Single a) = (c =? a).
Proof.
  intros Ha. apply Bool.eq_iff_eq_true. cbn [Regex.item_matches].
  rewrite !N.eqb_eq.
  apply orb_false_iff in Ha as [Hl Hu].
  rewrite (canonicalize_other a Hl).
  apply not_true_iff_false in Hu. unfold Char.is_upper in Hu. rewrite in_range_spec in Hu.
  destruct (Char.is_lower c) eqn:Hc.
  - rewrite (canonicalize_lower c Hc). apply is_lower_spec in Hc.
    apply is_lower_false in Hl. lia.
  - rewrite (canonicalize_other c Hc). split; congruence.
Qed.

Lemma unsafe_chars_matches c :
  Regex.class_matches true unsafe_chars c = negb (keeps c).
Proof.
  unfold Regex.class_matches, unsafe_chars, keeps.
  cbn [Regex.negated Regex.items existsb xorb].
  rewrite letter_range_matches, digit_range_matches, !single_matches by reflexivity.
  cbn [Regex.item_matches]. by rewrite orb_false_r, !orb_assoc.
Qed.

(** ** [replace] and [trim] *)

Lemma replace_all_unsafe s :
  Regex.replace_all true unsafe_chars (lit "_") s = sanitize_char <$> s.
Proof.
  unfold Regex.replace_all. induction s as [|c s IH]; [done|].
  rewrite bind_cons, IH, fmap_cons, unsafe_chars_matches.
  unfold sanitize_char. by destruct (keeps c).
Qed.

Lemma keeps_whitespace c : Char.is_whitespace c = true → keeps c = true.
Proof. unfold keeps. intros ->. apply orb_true_r. Qed.

Lemma underscore_not_whitespace : Char.is_whitespace Char.underscore = false.
Proof. reflexivity. Qed.

Lemma sanitize_char_whitespace c :
  Char.is_whitespace (sanitize_char c) = Char.is_whitespace c.
Proof.
  unfold sanitize_char. destruct (keeps c) eqn:Hk; [done|].
  rewrite underscore_not_whitespace. symmetry.
  destruct (Char.is_whitespace c) eqn:Hw; [|done].
  apply keeps_whitespace in Hw. congruence.
Qed.

Lemma keeps_sanitize_char c : keeps (sanitize_char c) = true.
Proof. unfold sanitize_char. by destruct (keeps c) eqn:Hk. Qed.

Lemma sanitize_char_idemp c : sanitize_char (sanitize_char c) = sanitize_char c.
Proof. unfold sanitize_char at 1. by rewrite keeps_sanitize_char. Qed.

Lemma trimStart_clean s : clean_head (trimStart s).
Proof.
  induction s as [|c s IH]; [done|]. simpl.
  by destruct (Char.is_whitespace c) eqn:Hc.
Qed.

Lemma trimStart_id s : clean_head s → trimStart s = s.
Proof. destruct s as [|c s]; [done|]. simpl. by intros ->. Qed.

Lemma trimStart_suffix s :
  ∃ p, s = p ++ trimStart s ∧ Forall (λ c, Char.is_whitespace c = true) p.
Proof.
  induction s as [|c s (p & Hp & Hall)]; [by exists []|]. simpl.
  destruct (Char.is_whitespace c) eqn:Hc.
  - exists (c :: p). split; [by rewrite Hp at 1|by constructor].
  - by exists [].
Qed.

Lemma trimEnd_clean s : clean_head s → clean_head (trimEnd s).
Proof.
  unfold trimEnd. intros Hs.
  destruct (trimStart_suffix (reverse s)) as (p & Hp & _).
  destruct (trimStart (reverse s)) as [|c u] eqn:Hu; [done|].
  apply (f_equal reverse) in Hp. rewrite reverse_involutive, reverse_app in Hp.
  subst s. destruct (reverse (c :: u)) eqn:Hr; [|exact Hs].
  apply (f_equal length) in Hr. rewrite length_reverse in Hr. done.
Qed.

Lemma trimEnd_id s : clean_head (reverse s) → trimEnd s = s.
Proof.
  intros H. unfold trimEnd. rewrite trimStart_id by done.
  apply reverse_involutive.
Qed.

Lemma trim_idemp s : trim (trim s) = trim s.
Proof.
  unfold trim at 1.
  rewrite (trimStart_id (trim s)) by apply trimEnd_clean, trimStart_clean.
  apply trimEnd_id. unfold trim, trimEnd. rewrite reverse_involutive.
  apply trimStart_clean.
Qed.

Lemma trimStart_fmap (f : N → N) s :
  (∀ c, Char.is_whitespace (f c) = Char.is_whitespace c) →
  trimStart (f <$> s) = f <$> trimStart s.
Proof.
  intros Hf. induction s as [|c s IH]; [done|]. simpl. rewrite Hf.
  by destruct (Char.is_whitespace c).
Qed.

Lemma trim_fmap (f : N → N) s :
  (∀ c, Char.is_whitespace (f c) = Char.is_whitespace c) →
  trim (f <$> s) = f <$> trim s.
Proof.
  intros Hf. unfold trim, trimEnd.
  rewrite trimStart_fmap by done. rewrite <- fmap_reverse.
  rewrite trimStart_fmap by done. by rewrite <- fmap_reverse.
Qed.

Lemma sanitize_fmap s : sanitize s = trim (sanitize_char <$> s).
Proof. unfold sanitize. by rewrite replace_all_unsafe. Qed.

(** A string the sanitizer has nothing to do on. *)
Lemma sanitize_id s :
  Forall (λ c, keeps c = true ∧ Char.is_whitespace c = false) s →
  sanitize s = s.
Proof.
  intros Hs. rewrite sanitize_fmap.
  assert (sanitize_char <$> s = s) as ->.
  { induction Hs as [|c s [Hk _] _ IH]; [done|].
    rewrite fmap_cons, IH. unfold sanitize_char. by rewrite Hk. }
  assert (∀ l, Forall (λ c, keeps c = true ∧ Char.is_whitespace c = false) l →
               clean_head l) as Hclean.
  { intros l Hl. destruct Hl as [|c l [_ Hw] _]; [done|exact Hw]. }
  unfold trim. rewrite trimStart_id by auto.
  apply trimEnd_id, Hclean, Forall_reverse, Hs.
Qed.

Ltac eval_lit :=
  repeat match goal with
  | |- context [lit (String ?a ?r)] =>
      let v := eval vm_compute in (lit (String a r)) in
      change (lit (String a r)) with v
  end.

Lemma image_name_cons i : ∃ s, image_name i = 105 :: s.
Proof. unfold image_name. eval_lit. eauto. Qed.

(** C8. Sanitizing is idempotent: the replacement of the characters followed
    by the trim, applied to its own result, gives that result again. *)
Theorem sanitize_idempotent (name : jsstring) :
  sanitize (sanitize name) = sanitize name.
Proof.
  rewrite !sanitize_fmap.
  rewrite (trim_fmap sanitize_char name) by apply sanitize_char_whitespace.
  rewrite <- list_fmap_compose.
  assert (sanitize_char ∘ sanitize_char <$> trim name
          = sanitize_char <$> trim name) as ->.
  { apply list_fmap_ext. intros _ c _. apply sanitize_char_idemp. }
  rewrite (trim_fmap sanitize_char) by apply sanitize_char_whitespace.
  by rewrite trim_idemp.
Qed.

(** C3, as the specification has it, fails: a tab inside a name is kept by
    the code, since [\s] stands for every white space, where the
    specification replaces everything but the space. *)
Lemma safeFileName_keeps_tab :
  safeFileName 0 [97; Char.tab; 98] = [97; Char.tab; 98]
  ∧ safeFileName_as_specified 0 [97; Char.tab; 98] = [97; Char.underscore; 98]
  ∧ ¬ (∀ i name, safeFileName i name = safeFileName_as_specified i name).
Proof.
  assert (safeFileName 0 [97; Char.tab; 98] = [97; Char.tab; 98]) as H1
    by (vm_compute; reflexivity).
  assert (safeFileName_as_specified 0 [97; Char.tab; 98]
          = [97; Char.underscore; 98]) as H2 by (vm_compute; reflexivity).
  split; [exact H1|]. split; [exact H2|].
  intros H. specialize (H 0%nat [97; Char.tab; 98]).
  rewrite H1, H2 in H. discriminate H.
Qed.

(** C3, amended. The sanitized file name is the name with every code unit
    replaced by an underscore unless it is a letter, a digit, an underscore,
    a hyphen or a white space (any of the [\s] class, not the space alone),
    then trimmed, and [image-<index>] when that is empty; so the file name
    of a result is never empty. *)
Theorem safeFileName_spec (i : nat) (name : jsstring) :
  safeFileName i name
  = match trim ((λ c, if keeps c then c else Char.underscore) <$> name) with
    | [] => lit "image-" ++ str_of_nat i
    | s => s
    end
  ∧ safeFileName i name ≠ []
  ∧ ∀ w imageUrl full, fileName (newImage w imageUrl full i name) ≠ [].
Proof.
  unfold newImage, safeFileName, or_str. cbn [fileName]. rewrite sanitize_fmap.
  change (λ c, if keeps c then c else Char.underscore) with sanitize_char.
  destruct (trim (sanitize_char <$> name)) as [|c s]; cbn [truthy_str].
  - destruct (image_name_cons i) as [s Hs]. unfold image_name in Hs.
    rewrite Hs. by split_and!.
  - by split_and!.
Qed.

(** C6. With a baseline that is not empty the prompt sent is the baseline,
    a period and a space, and the prompt of the row; with an empty baseline
    it is the prompt of the row. *)
Theorem fullPrompt_spec :
  (∀ c b p, fullPrompt (c :: b) p = (c :: b) ++ lit ". " ++ p)
  ∧ (∀ p, fullPrompt [] p = p)
  ∧ fullPrompt (lit "studio lighting") (lit "red sneaker")
    = lit "studio lighting. red sneaker"
  ∧ fullPrompt [] (lit "red sneaker") = lit "red sneaker".
Proof. repeat split. Qed.

(** ** The generation service *)

Lemma first_inline_cons part rest :
  Service.first_inline (part :: rest)
  = match Service.payload part with
    | Some imageUrl => Some imageUrl
    | None => Service.first_inline rest
    end.
Proof.
  unfold Service.payload. simpl.
  destruct (Service.inlineData part) as [[d m]|]; simpl; [|done].
  destruct d as [[|c d]|]; simpl; try done.
  destruct m as [[|c' m]|]; simpl; done.
Qed.

Lemma first_inline_Some ps imageUrl :
  Service.first_inline ps = Some imageUrl ↔
  ∃ before part after,
    ps = before ++ part :: after
    ∧ Forall (λ q, Service.payload q = None) before
    ∧ Service.payload part = Some imageUrl.
Proof.
  induction ps as [|p ps IH].
  - split; [done|]. intros (before & part & after & H & _). by destruct before.
  - rewrite first_inline_cons. destruct (Service.payload p) as [u|] eqn:Hp.
    + split.
      * intros [= <-]. exists [], p, ps. by repeat split.
      * intros (before & part & after & H & Hall & Hpart).
        destruct before as [|q before]; injection H as <- ->.
        -- congruence.
        -- apply Forall_cons in Hall as [Hq _]. congruence.
    + rewrite IH. split.
      * intros (before & part & after & -> & Hall & Hpart).
        exists (p :: before), part, after. repeat split; [|done]. by constructor.
      * intros (before & part & after & H & Hall & Hpart).
        destruct before as [|q before]; injection H as <- ->.
        -- congruence.
        -- apply Forall_cons in Hall as [_ Hall]. eauto 6.
Qed.

Lemma first_inline_None ps :
  Service.first_inline ps = None ↔ Forall (λ q, Service.payload q = None) ps.
Proof.
  induction ps as [|p ps IH]; [by split|].
  rewrite first_inline_cons, Forall_cons.
  destruct (Service.payload p) as [u|].
  - split; [done|]. by intros [? _].
  - rewrite IH. split; [done|]. by intros [_ ?].
Qed.

Lemma extract_first_parts response :
  Service.extractImageFromResponse response
  = Service.first_inline (Service.first_parts response).
Proof.
  unfold Service.extractImageFromResponse, Service.first_parts.
  destruct (Service.candidates response) as [[|first rest]|]; try done.
  destruct (Service.content first) as [c|]; [|done]. simpl.
  by destruct (Service.parts c).
Qed.

Lemma payload_truthy part imageUrl :
  Service.payload part = Some imageUrl → truthy_str imageUrl = true.
Proof.
  unfold Service.payload. destruct (Service.inlineData part) as [blob|]; [|done].
  simpl. destruct (Service.data blob) as [d|]; [|done]. simpl.
  case_bool_decide; [done|]. intros [= <-]. by eval_lit.
Qed.

Lemma generate_extract reply :
  Service.generateImageWithGemini reply
  = match reply with
    | Service.Rejects err => Service.Thrown err
    | Service.Resolves response =>
        match Service.extractImageFromResponse response with
        | Some imageUrl => Service.Returned imageUrl
        | None => Service.Thrown Service.no_image_error
        end
    end.
Proof.
  destruct reply as [err|response]; [done|]. simpl.
  destruct (Service.extractImageFromResponse response) as [u|] eqn:Hu; [|done].
  rewrite extract_first_parts in Hu.
  apply first_inline_Some in Hu as (? & part & ? & _ & _ & Hp).
  by rewrite (payload_truthy _ _ Hp).
Qed.

(** C7. The extraction looks at the parts of the first candidate only, in
    order, and returns the payload of the first part that carries inline
    data, with the declared media type or [image/png]; the generate
    operation throws exactly when there is no such part (no candidates
    included) or the call to the remote model fails. *)
Theorem generateImageWithGemini_spec :
  (∀ first rest rest',
     Service.extractImageFromResponse (Service.mkResponse (Some (first :: rest)))
     = Service.extractImageFromResponse (Service.mkResponse (Some (first :: rest'))))
  ∧ Service.extractImageFromResponse (Service.mkResponse None) = None
  ∧ Service.extractImageFromResponse (Service.mkResponse (Some [])) = None
  ∧ (∀ response imageUrl,
       Service.extractImageFromResponse response = Some imageUrl ↔
       ∃ before part after,
         Service.first_parts response = before ++ part :: after
         ∧ Forall (λ q, Service.payload q = None) before
         ∧ Service.payload part = Some imageUrl)
  ∧ (∀ c d c' m text,
       Service.payload
         (Service.mkPart text
            (Some (Service.mkInline (Some (c :: d)) (Some (c' :: m)))))
       = Some (lit "data:" ++ (c' :: m) ++ lit ";base64," ++ c :: d))
  ∧ (∀ c d text,
       Service.payload
         (Service.mkPart text (Some (Service.mkInline (Some (c :: d)) None)))
       = Some (lit "data:image/png;base64," ++ c :: d)
       ∧ Service.payload
           (Service.mkPart text (Some (Service.mkInline (Some (c :: d)) (Some []))))
         = Some (lit "data:image/png;base64," ++ c :: d))
  ∧ (∀ m text,
       Service.payload (Service.mkPart text (Some (Service.mkInline None m))) = None
       ∧ Service.payload
           (Service.mkPart text (Some (Service.mkInline (Some []) m))) = None)
  ∧ (∀ text, Service.payload (Service.mkPart text None) = None)
  ∧ (∀ reply,
       (∃ err, Service.generateImageWithGemini reply = Service.Thrown err) ↔
       (∃ err, reply = Service.Rejects err)
       ∨ (∃ response, reply = Service.Resolves response
            ∧ Forall (λ q, Service.payload q = None)
                     (Service.first_parts response)))
  ∧ (∀ reply imageUrl,
       Service.generateImageWithGemini reply = Service.Returned imageUrl ↔
       ∃ response, reply = Service.Resolves response
         ∧ Service.extractImageFromResponse response = Some imageUrl).
Proof.
  split; [done|]. split; [done|]. split; [done|].
  split; [|split; [|split; [|split; [|split; [|split]]]]].
  - intros response imageUrl. rewrite extract_first_parts.
    apply first_inline_Some.
  - done.
  - done.
  - done.
  - done.
  - intros reply. rewrite generate_extract. destruct reply as [err|response].
    + split; [eauto|]. eauto.
    + rewrite extract_first_parts.
      destruct (Service.first_inline _) as [u|] eqn:Hu.
      * split; [by intros [? ?]|]. intros [[? ?]|(r & [= <-] & Hall)]; [done|].
        apply first_inline_None in Hall. congruence.
      * split; [|eauto]. intros _. right. exists response. split; [done|].
        by apply first_inline_None.
  - intros reply imageUrl. rewrite generate_extract.
    destruct reply as [err|response].
    + split; [done|]. by intros (? & ? & _).
    + destruct (Service.extractImageFromResponse response) as [u|] eqn:Hu.
      * split; [intros [= <-]; eauto|]. intros (r & [= <-] & Hr). congruence.
      * split; [done|]. intros (r & [= <-] & Hr). congruence.
Qed.

(** ** Decimal numerals *)

Lemma lit_String a r : lit (String a r) = N_of_ascii a :: lit r.
Proof. reflexivity. Qed.

Lemma pretty_N_char_digit x : Char.is_digit (N_of_ascii (pretty_N_char x)) = true.
Proof. unfold pretty_N_char. repeat case_match; reflexivity. Qed.

Lemma pretty_N_go_digits x :
  ∀ r, Forall (λ c, Char.is_digit c = true) (lit r) →
       Forall (λ c, Char.is_digit c = true) (lit (pretty_N_go x r)).
Proof.
  induction (N.lt_wf_0 x) as [x _ IH]. intros r Hr.
  destruct (decide (x = 0)) as [->|Hx].
  - by rewrite pretty_N_go_0.
  - rewrite pretty_N_go_step by lia. apply IH.
    + apply N.div_lt; lia.
    + rewrite lit_String. constructor; [apply pretty_N_char_digit|done].
Qed.

Lemma str_of_nat_digits n : Forall (λ c, Char.is_digit c = true) (str_of_nat n).
Proof.
  unfold str_of_nat, pretty, pretty_nat, pretty, pretty_N.
  case_decide.
  - repeat constructor.
  - apply pretty_N_go_digits. constructor.
Qed.

Lemma digit_kept c :
  Char.is_digit c = true → keeps c = true ∧ Char.is_whitespace c = false.
Proof.
  intros Hd. split.
  - unfold keeps. rewrite Hd. by rewrite orb_true_r.
  - apply in_range_spec in Hd. unfold Char.is_whitespace, Char.in_range.
    repeat match goal with
    | |- context [N.eqb ?a ?b] => destruct (N.eqb_spec a b); [lia|]
    | |- context [N.leb ?a ?b] => destruct (N.leb_spec a b)
    end; try lia; reflexivity.
Qed.

Lemma sanitize_image_name i : sanitize (image_name i) = image_name i.
Proof.
  apply sanitize_id. unfold image_name. apply Forall_app. split.
  - eval_lit. repeat constructor.
  - eapply Forall_impl; [apply str_of_nat_digits|]. apply digit_kept.
Qed.

Lemma safeFileName_image_name i : safeFileName i (image_name i) = image_name i.
Proof.
  unfold safeFileName. rewrite sanitize_image_name.
  by destruct (image_name_cons i) as [r ->].
Qed.

(** ** One iteration *)

Lemma trimStart_nil s :
  trimStart s = [] ↔ Forall (λ c, Char.is_whitespace c = true) s.
Proof.
  induction s as [|c s IH]; [by split|]. simpl.
  destruct (Char.is_whitespace c) eqn:Hc.
  - rewrite IH. split; [by constructor|]. by intros [_ ?]%Forall_cons.
  - split; [done|]. intros [? _]%Forall_cons. congruence.
Qed.

Lemma trim_nil s : trim s = [] ↔ Forall (λ c, Char.is_whitespace c = true) s.
Proof.
  rewrite <- trimStart_nil. unfold trim, trimEnd. split.
  - intros H. apply (f_equal reverse) in H. rewrite reverse_involutive in H.
    change (reverse []) with (@nil N) in H.
    rewrite trimStart_id in H.
    + apply (f_equal reverse) in H. by rewrite reverse_involutive in H.
    + pose proof (trimStart_clean s) as Hc.
      destruct (trimStart s) as [|c t] eqn:Ht; [done|].
      exfalso. apply trimStart_nil in H as Hall.
      apply Forall_reverse in Hall. rewrite reverse_involutive in Hall.
      apply Forall_cons in Hall as [Hw _]. simpl in Hc. congruence.
  - by intros ->.
Qed.

Lemma in_flight_false cfg row :
  in_flight cfg row = false ↔
  Forall (λ c, Char.is_whitespace c = true) (productPrompt cfg row).
Proof.
  rewrite <- trim_nil. unfold in_flight.
  by destruct (trim (productPrompt cfg row)).
Qed.

Lemma iteration_blank cfg w i row st :
  in_flight cfg row = false →
  iteration cfg w i row st
  = setStatus one_more
      (addLog (lit "Skipping row " ++ str_of_nat (i + 1) ++ lit ": Empty prompt") st).
Proof. unfold in_flight, iteration. by intros ->. Qed.

Lemma iteration_completed cfg w i row st :
  completed (status (iteration cfg w i row st)) = (completed (status st) + 1)%nat.
Proof.
  unfold iteration, stopGeneration. repeat case_match; reflexivity.
Qed.

Lemma iteration_total cfg w i row st :
  total (status (iteration cfg w i row st)) = total (status st).
Proof.
  unfold iteration, stopGeneration. repeat case_match; reflexivity.
Qed.

Lemma iteration_isProcessing cfg w i row st :
  isProcessing (status (iteration cfg w i row st)) = isProcessing (status st).
Proof.
  unfold iteration, stopGeneration. repeat case_match; reflexivity.
Qed.

Lemma iteration_abortRef cfg w i row st :
  isProcessing (status st) = true →
  abortRef (iteration cfg w i row st) = abortRef st || stops cfg w i row.
Proof.
  intros Hp. unfold stops, in_flight, iteration, stopGeneration.
  destruct (truthy_str (trim (productPrompt cfg row))); simpl;
    [|by rewrite orb_false_r].
  rewrite Hp.
  destruct (stop_clicked (around w i)), (Service.generateImageWithGemini _);
    simpl; by rewrite ?orb_true_r, ?orb_false_r.
Qed.

Lemma iteration_results cfg w i row st :
  results (iteration cfg w i row st) = results st ++ produced cfg w i row.
Proof.
  unfold produced, in_flight, iteration, stopGeneration.
  destruct (truthy_str (trim (productPrompt cfg row))); simpl;
    [|by rewrite app_nil_r].
  destruct (stop_clicked (around w i)), (isProcessing (status st)),
    (Service.generateImageWithGemini _); simpl; by rewrite ?app_nil_r.
Qed.

Lemma produced_quiet cfg w i row : produced cfg (quiet w) i row = produced cfg w i row.
Proof. reflexivity. Qed.

Lemma produced_all_quiet cfg w rows :
  ∀ i, produced_all cfg (quiet w) i rows = produced_all cfg w i rows.
Proof. induction rows as [|row rest IH]; intros i; simpl; by rewrite ?IH. Qed.

(** ** The trace *)

Lemma tracked_addLog n msg st : tracked n st → tracked n (addLog msg st).
Proof. done. Qed.

Lemma tracked_record n i full st :
  tracked n st → tracked n (record_event (EvGenerate i full) st).
Proof. done. Qed.

Lemma tracked_setResults n f st : tracked n st → tracked n (setResults f st).
Proof. done. Qed.

Lemma tracked_set_abortRef n b st : tracked n st → tracked n (set_abortRef b st).
Proof. done. Qed.

Lemma tracked_stopGeneration n st : tracked n st → tracked n (stopGeneration st).
Proof. unfold stopGeneration. by destruct (isProcessing (status st)). Qed.

Lemma tracked_setStatus n f st :
  total (f (status st)) = total (status st) →
  (completed (f (status st)) = completed (status st)
   ∨ completed (f (status st)) = S (completed (status st))) →
  tracked n st → tracked n (setStatus f st).
Proof.
  intros Ht Hc (Hn & Hall & Hhd & Hlast & Hcl).
  unfold tracked, setStatus. simpl.
  destruct (counts (trace st)) as [|c older] eqn:Hcounts; [done|].
  injection Hhd as ->.
  repeat split; [congruence|constructor; [congruence|done]|done|done|done].
Qed.

Lemma tracked_iteration n cfg w i row st :
  tracked n st → tracked n (iteration cfg w i row st).
Proof.
  intros H. unfold iteration.
  destruct (truthy_str (trim (productPrompt cfg row))); simpl.
  - apply tracked_setStatus; [done|right; simpl; lia|].
    assert (tracked n
      (if stop_clicked (around w i)
       then stopGeneration
              (record_event (EvGenerate i (fullPrompt (baselinePrompt cfg)
                 (productPrompt cfg row)))
                 (setStatus (with_action (lit "Generating: "
                    ++ productName cfg i row)) st))
       else record_event (EvGenerate i (fullPrompt (baselinePrompt cfg)
                 (productPrompt cfg row)))
                 (setStatus (with_action (lit "Generating: "
                    ++ productName cfg i row)) st))) as H'.
    { assert (tracked n (setStatus (with_action (lit "Generating: "
                ++ productName cfg i row)) st)) as H0
        by (apply tracked_setStatus; [done|by left|done]).
      destruct (stop_clicked (around w i));
        [apply tracked_stopGeneration|]; by apply tracked_record. }
    destruct (Service.generateImageWithGemini _);
      [apply tracked_addLog, tracked_setResults|apply tracked_addLog]; done.
  - apply tracked_setStatus; [done|right; simpl; lia|]. by apply tracked_addLog.
Qed.

Lemma climbs_arrivals n l :
  (0 < n)%nat → climbs l → last l = Some 0%nat →
  ∀ k, head l = Some k →
    Forall (λ c, (c ≤ k)%nat) l
    ∧ arrivals n l = (if bool_decide (n ≤ k)%nat then 1 else 0)%nat.
Proof.
  intros Hn. induction l as [|a [|b older] IH]; intros Hcl Hlast k Hk.
  - done.
  - simpl in *. simplify_eq. split; [by repeat constructor|].
    case_bool_decide; [lia|done].
  - destruct Hcl as [Hab Hcl]. rewrite last_cons_cons in Hlast.
    destruct (IH Hcl Hlast b eq_refl) as [Hall Harr].
    injection Hk as <-. split.
    + constructor; [done|]. eapply Forall_impl; [exact Hall|]. simpl. lia.
    + change (arrivals n (a :: b :: older))
        with ((if bool_decide (a = n ∧ b ≠ n) then 1 else 0)
              + arrivals n (b :: older))%nat.
      rewrite Harr. repeat case_bool_decide; lia.
Qed.

(** ** The rows one after the other *)

Lemma iterate_status cfg w rows :
  ∀ i st,
    completed (status (iterate cfg w i rows st))
    = (completed (status st) + length rows)%nat
    ∧ total (status (iterate cfg w i rows st)) = total (status st)
    ∧ isProcessing (status (iterate cfg w i rows st)) = isProcessing (status st).
Proof.
  induction rows as [|row rest IH]; intros i st; simpl.
  - repeat split. lia.
  - destruct (IH (S i) (iteration cfg w i row st)) as (-> & -> & ->).
    rewrite iteration_completed, iteration_total, iteration_isProcessing.
    repeat split. lia.
Qed.

Lemma iterate_results cfg w rows :
  ∀ i st,
    results (iterate cfg w i rows st) = results st ++ produced_all cfg w i rows.
Proof.
  induction rows as [|row rest IH]; intros i st; simpl.
  - by rewrite app_nil_r.
  - by rewrite IH, iteration_results, app_assoc.
Qed.

Lemma tracked_iterate n cfg w rows :
  ∀ i st, tracked n st → tracked n (iterate cfg w i rows st).
Proof.
  induction rows as [|row rest IH]; intros i st H; simpl; [done|].
  by apply IH, tracked_iteration.
Qed.

Lemma iteration_calls cfg w i row st :
  calls (trace (iteration cfg w i row st))
  = (if in_flight cfg row then [i] else []) ++ calls (trace st).
Proof.
  unfold in_flight, iteration, stopGeneration.
  destruct (truthy_str (trim (productPrompt cfg row))); simpl; [|done].
  by destruct (stop_clicked (around w i)), (isProcessing (status st)),
    (Service.generateImageWithGemini _).
Qed.

Lemma iterate_calls cfg w rows :
  ∀ i st,
    calls (trace (iterate cfg w i rows st))
    = reverse (called cfg i rows) ++ calls (trace st).
Proof.
  induction rows as [|row rest IH]; intros i st; simpl; [done|].
  rewrite IH, iteration_calls, reverse_app, <- app_assoc.
  by destruct (in_flight cfg row).
Qed.

Lemma called_bounds cfg rows :
  ∀ i j, j ∈ called cfg i rows → (i ≤ j < i + length rows)%nat.
Proof.
  induction rows as [|row rest IH]; intros i j; simpl.
  - by intros ?%elem_of_nil.
  - rewrite elem_of_app. intros [Hj|Hj].
    + destruct (in_flight cfg row); [|by apply elem_of_nil in Hj].
      apply list_elem_of_singleton in Hj. lia.
    + apply IH in Hj. lia.
Qed.

Lemma called_lookup cfg rows :
  ∀ i j row,
    rows !! j = Some row → in_flight cfg row = true →
    (i + j)%nat ∈ called cfg i rows.
Proof.
  induction rows as [|r rest IH]; intros i j row Hj Hf; [done|].
  simpl. apply elem_of_app. destruct j as [|j]; simpl in Hj.
  - injection Hj as ->. rewrite Hf. left. rewrite Nat.add_0_r.
    by apply list_elem_of_singleton.
  - right. replace (i + S j)%nat with (S i + j)%nat by lia. by eapply IH.
Qed.

Lemma logged_stopGeneration st :
  logged (trace (stopGeneration st))
  = (if isProcessing (status st)
     then [lit "Stopping generation after current item finishes..."] else [])
    ++ logged (trace st).
Proof. unfold stopGeneration. by destruct (isProcessing (status st)). Qed.

(** The message of the cancelled loop is not one of an iteration. *)
Lemma iteration_logged cfg w i row st :
  lit "Process stopped by user." ∈ logged (trace (iteration cfg w i row st)) →
  lit "Process stopped by user." ∈ logged (trace st).
Proof.
  unfold iteration.
  destruct (truthy_str (trim (productPrompt cfg row))); cbn [negb].
  - set (st1 := record_event _ _).
    assert (logged (trace st1) = logged (trace st)) as H1 by done.
    set (st2 := if stop_clicked (around w i) then stopGeneration st1 else st1).
    assert (lit "Process stopped by user." ∈ logged (trace st2) →
            lit "Process stopped by user." ∈ logged (trace st)) as H2.
    { unfold st2. destruct (stop_clicked (around w i)); [|by rewrite H1].
      rewrite logged_stopGeneration, H1.
      destruct (isProcessing (status st1)); [|done].
      eval_lit. cbn [app]. rewrite elem_of_cons. by intros [?|?]. }
    destruct (Service.generateImageWithGemini _) as [imageUrl|err];
      intros H; apply H2; revert H;
      change (logged (trace (setStatus one_more (addLog ?m ?s))))
        with (m :: logged (trace s));
      eval_lit; cbn [app]; rewrite elem_of_cons; by intros [?|?].
  - change (logged (trace (setStatus one_more (addLog ?m ?s))))
      with (m :: logged (trace s)).
    eval_lit. cbn [app]. rewrite elem_of_cons. by intros [?|?].
Qed.

Lemma iterate_logged cfg w rows :
  ∀ i st,
    lit "Process stopped by user." ∈ logged (trace (iterate cfg w i rows st)) →
    lit "Process stopped by user." ∈ logged (trace st).
Proof.
  induction rows as [|row rest IH]; intros i st; simpl; [done|].
  intros H. by eapply iteration_logged, IH.
Qed.

(** ** The loop *)

Lemma first_stop_bounds cfg w rows :
  ∀ i j, first_stop cfg w i rows = Some j → (i ≤ j < i + length rows)%nat.
Proof.
  induction rows as [|row rest IH]; intros i j; simpl; [done|].
  destruct (stops cfg w i row).
  - intros [= <-]. lia.
  - intros H%IH. lia.
Qed.

Lemma first_stop_stops cfg w rows :
  ∀ i j, first_stop cfg w i rows = Some j →
    ∃ row, rows !! (j - i)%nat = Some row ∧ stops cfg w j row = true.
Proof.
  induction rows as [|row rest IH]; intros i j; simpl; [done|].
  destruct (stops cfg w i row) eqn:Hs.
  - intros [= <-]. exists row. by rewrite Nat.sub_diag.
  - intros H. pose proof (first_stop_bounds _ _ _ _ _ H) as Hb.
    destruct (IH _ _ H) as (r & Hr & Hsr). exists r. split; [|done].
    by replace (j - i)%nat with (S (j - S i)) by lia.
Qed.

(** Nobody clicks Stop: the loop processes every row. *)
Lemma loop_all cfg w rows :
  ∀ i st,
    first_stop cfg w i rows = None →
    abortRef st = false → isProcessing (status st) = true →
    loop cfg w i rows st = iterate cfg w i rows st
    ∧ abortRef (iterate cfg w i rows st) = false.
Proof.
  induction rows as [|row rest IH]; intros i st Hfs Ha Hp; simpl in *; [done|].
  rewrite Ha. destruct (stops cfg w i row) eqn:Hs; [done|].
  apply IH; [done| |by rewrite iteration_isProcessing].
  by rewrite iteration_abortRef, Ha, Hs.
Qed.

(** Stop is first clicked during row [j]: the loop processes the rows up to
    [j], and logs that it was stopped when a row is left. *)
Lemma loop_stop cfg w rows :
  ∀ i j st,
    first_stop cfg w i rows = Some j →
    abortRef st = false → isProcessing (status st) = true →
    loop cfg w i rows st
    = (if bool_decide (S j < i + length rows)%nat
       then addLog (lit "Process stopped by user.")
              (iterate cfg w i (take (S j - i) rows) st)
       else iterate cfg w i (take (S j - i) rows) st)
    ∧ abortRef (iterate cfg w i (take (S j - i) rows) st) = true.
Proof.
  induction rows as [|row rest IH]; intros i j st Hfs Ha Hp; simpl in *; [done|].
  rewrite Ha. destruct (stops cfg w i row) eqn:Hs.
  - injection Hfs as <-. replace (S i - i)%nat with 1%nat by lia.
    cbn [take iterate].
    assert (abortRef (iteration cfg w i row st) = true) as Hab
      by (by rewrite iteration_abortRef, Ha, Hs).
    split; [|done]. destruct rest as [|r rest]; simpl.
    + case_bool_decide; [lia|done].
    + rewrite Hab. case_bool_decide; [done|lia].
  - pose proof (first_stop_bounds _ _ _ _ _ Hfs) as Hb.
    replace (S j - i)%nat with (S (S j - S i)) by lia. cbn [take iterate].
    destruct (IH (S i) j (iteration cfg w i row st) Hfs) as [-> ->].
    + by rewrite iteration_abortRef, Ha, Hs.
    + by rewrite iteration_isProcessing.
    + split; [|done]. repeat case_bool_decide; done || lia.
Qed.

(** ** The handler *)

Lemma handler_guard cfg w st :
  excelData cfg ≠ [] → promptColumn cfg ≠ [] → filenameColumn cfg ≠ [] →
  handleStartBulkGeneration cfg w st
  = match updaters w with
    | AtCall =>
        set_abortRef false
          (setStatus
             (final_update (abortRef (loop cfg w 0 (excelData cfg) (started cfg st))))
             (loop cfg w 0 (excelData cfg) (started cfg st)))
    | AtRender =>
        setStatus (final_update false)
          (set_abortRef false (loop cfg w 0 (excelData cfg) (started cfg st)))
    end.
Proof.
  intros Hrows Hp Hf. unfold handleStartBulkGeneration.
  destruct (excelData cfg) as [|row rows] eqn:Hd; [done|].
  destruct (promptColumn cfg); [done|]. destruct (filenameColumn cfg); [done|].
  simpl orb. cbv iota. unfold started. rewrite Hd. done.
Qed.

Lemma started_tracked cfg st : tracked (length (excelData cfg)) (started cfg st).
Proof. repeat split. by repeat constructor. Qed.

(** How many rows the loop processes. *)
Lemma loop_outcome cfg w st0 :
  let rows := excelData cfg in
  let st := loop cfg w 0 rows (started cfg st0) in
  let k := match first_stop cfg w 0 rows with
           | Some j => S j
           | None => length rows
           end in
  (k ≤ length rows)%nat
  ∧ tracked (length rows) st
  ∧ completed (status st) = k
  ∧ isProcessing (status st) = true
  ∧ abortRef st = bool_decide (is_Some (first_stop cfg w 0 rows))
  ∧ results st = produced_all cfg w 0 (take k rows)
  ∧ calls (trace st) = reverse (called cfg 0 (take k rows))
  ∧ (lit "Process stopped by user." ∈ logged (trace st) ↔ (k < length rows)%nat).
Proof.
  intros rows st k.
  assert (¬ lit "Process stopped by user." ∈ logged (trace (started cfg st0)))
    as Hlog0.
  { unfold started. simpl. eval_lit. rewrite elem_of_cons, elem_of_nil.
    by intros [?|?]. }
  destruct (first_stop cfg w 0 rows) as [j|] eqn:Hfs.
  - pose proof (first_stop_bounds _ _ _ _ _ Hfs) as Hb. simpl in Hb.
    destruct (loop_stop cfg w rows 0 j (started cfg st0) Hfs eq_refl eq_refl)
      as [Hloop Hab].
    rewrite Nat.sub_0_r in Hloop, Hab. fold st in Hloop. subst k.
    set (it := iterate cfg w 0 (take (S j) rows) (started cfg st0)) in *.
    destruct (iterate_status cfg w (take (S j) rows) 0 (started cfg st0))
      as (Hc & _ & Hp). fold it in Hc, Hp.
    rewrite length_take, Nat.min_l in Hc by lia.
    change (completed (status it) = S j) in Hc.
    change (isProcessing (status it) = true) in Hp.
    assert (tracked (length rows) it) as Htr
      by apply tracked_iterate, started_tracked.
    assert (results it = produced_all cfg w 0 (take (S j) rows)) as Hres
      by (unfold it; by rewrite iterate_results).
    assert (calls (trace it) = reverse (called cfg 0 (take (S j) rows))) as Hcalls
      by (unfold it; by rewrite iterate_calls, app_nil_r).
    assert (¬ lit "Process stopped by user." ∈ logged (trace it)) as Hlog
      by (intros H; by apply iterate_logged in H).
    split; [lia|]. rewrite bool_decide_true by eauto.
    simpl in Hloop. case_bool_decide as Hlt; rewrite Hloop.
    + split_and!; try done.
      split; [done|]. intros _. simpl. apply list_elem_of_here.
    + split_and!; try done.
  - destruct (loop_all cfg w rows 0 (started cfg st0) Hfs eq_refl eq_refl)
      as [Hloop Hab].
    fold st in Hloop. subst k. rewrite firstn_all.
    destruct (iterate_status cfg w rows 0 (started cfg st0)) as (Hc & _ & Hp).
    split; [lia|]. rewrite bool_decide_false by (by intros [? ?]).
    rewrite Hloop. split_and!; try done.
    + apply tracked_iterate, started_tracked.
    + by rewrite iterate_results.
    + by rewrite iterate_calls, app_nil_r.
    + split; [|lia]. intros H. apply iterate_logged in H. by destruct Hlog0.
Qed.

(** What a run leaves behind. *)
Lemma handler_outcome cfg w st0 :
  excelData cfg ≠ [] → promptColumn cfg ≠ [] → filenameColumn cfg ≠ [] →
  let rows := excelData cfg in
  let st := handleStartBulkGeneration cfg w st0 in
  let k := match first_stop cfg w 0 rows with
           | Some j => S j
           | None => length rows
           end in
  (k ≤ length rows)%nat
  ∧ tracked (length rows) st
  ∧ completed (status st) = k
  ∧ isProcessing (status st) = false
  ∧ currentAction (status st)
    = Some (match updaters w with
            | AtCall =>
                if bool_decide (is_Some (first_stop cfg w 0 rows))
                then lit "Stopped" else lit "Completed!"
            | AtRender => lit "Completed!"
            end)
  ∧ abortRef st = false
  ∧ results st = produced_all cfg w 0 (take k rows)
  ∧ calls (trace st) = reverse (called cfg 0 (take k rows))
  ∧ (lit "Process stopped by user." ∈ logged (trace st) ↔ (k < length rows)%nat).
Proof.
  intros Hrows Hp Hf rows st k.
  destruct (loop_outcome cfg w st0)
    as (Hk & Htr & Hc & Hproc & Hab & Hres & Hcalls & Hlog).
  unfold st. rewrite handler_guard by done. fold rows k in Hk, Htr, Hc, Hlog |- *.
  set (L := loop cfg w 0 (excelData cfg) (started cfg st0)) in *.
  destruct (updaters w).
  - split_and!; try done.
    + apply tracked_set_abortRef, tracked_setStatus; [done|by left|done].
    + change (Some (if abortRef L then lit "Stopped" else lit "Completed!")
              = Some (if bool_decide (is_Some (first_stop cfg w 0 rows))
                      then lit "Stopped" else lit "Completed!")).
      by rewrite Hab.
  - split_and!; try done.
    apply tracked_setStatus; [done|by left|]. by apply tracked_set_abortRef.
Qed.

(** ** The counter of completed rows *)

(** C1, as the specification has it, fails: in a run that is cancelled
    during its first row of two, [completed] ends at 1 and never reaches
    [total = 2]. *)
Lemma cancelled_run_stays_below_total :
  excelData (Demo.settings Demo.two_rows) ≠ []
  ∧ promptColumn (Demo.settings Demo.two_rows) ≠ []
  ∧ filenameColumn (Demo.settings Demo.two_rows) ≠ []
  ∧ total (status (Demo.cancelled AtCall 0)) = 2%nat
  ∧ completed (status (Demo.cancelled AtCall 0)) = 1%nat
  ∧ counts (trace (Demo.cancelled AtCall 0)) = [1; 1; 0; 0]%nat
  ∧ arrivals 2 (counts (trace (Demo.cancelled AtCall 0))) = 0%nat
  ∧ ¬ (∀ cfg w st0,
         excelData cfg ≠ [] → promptColumn cfg ≠ [] → filenameColumn cfg ≠ [] →
         arrivals (length (excelData cfg))
           (counts (trace (handleStartBulkGeneration cfg w st0))) = 1%nat).
Proof.
  do 7 (split; [by vm_compute|]).
  intros H.
  specialize (H (Demo.settings Demo.two_rows) (Demo.world AtCall (Some 0%nat))
                Demo.idle ltac:(done) ltac:(done) ltac:(done)).
  vm_compute in H. discriminate H.
Qed.

(** C1, amended. In a run on a sheet that is not empty, with both columns
    chosen, [completed] starts at 0 with [total] the number of rows, moves
    by steps of one, goes up by exactly one in each iteration whatever its
    outcome, and never exceeds [total]; it ends at the number of rows
    processed, which is every row unless Stop is clicked during a row [j],
    where it is [j + 1]; and it arrives at [total] once when it ends there
    and never otherwise. *)
Theorem completed_counter (cfg : Settings) (w : World) (st0 : Component) :
  excelData cfg ≠ [] → promptColumn cfg ≠ [] → filenameColumn cfg ≠ [] →
  let st := handleStartBulkGeneration cfg w st0 in
  let n := length (excelData cfg) in
  last (counts (trace st)) = Some 0%nat
  ∧ Forall (λ s, total s = n) (statuses (trace st))
  ∧ climbs (counts (trace st))
  ∧ Forall (λ c, (c ≤ n)%nat) (counts (trace st))
  ∧ (∀ i row st',
       completed (status (iteration cfg w i row st'))
       = (completed (status st') + 1)%nat)
  ∧ completed (status st)
    = match first_stop cfg w 0 (excelData cfg) with
      | Some j => S j
      | None => n
      end
  ∧ arrivals n (counts (trace st))
    = (if bool_decide (completed (status st) = n) then 1 else 0)%nat.
Proof.
  intros Hrows Hp Hf st n.
  destruct (handler_outcome cfg w st0 Hrows Hp Hf)
    as (Hk & (Hn & Hall & Hhd & Hlast & Hcl) & Hc & _).
  fold st n in Hk, Hn, Hall, Hhd, Hlast, Hcl, Hc.
  assert (0 < n)%nat as Hpos.
  { unfold n. destruct (excelData cfg); [done|simpl; lia]. }
  destruct (climbs_arrivals n _ Hpos Hcl Hlast _ Hhd) as [Hle Harr].
  split_and!; try done.
  - eapply Forall_impl; [exact Hle|]. simpl. intros c Hc'. rewrite Hc in Hc'. lia.
  - intros i row st'. apply iteration_completed.
  - rewrite Harr. rewrite Hc in *. repeat case_bool_decide; lia.
Qed.

(** The theorem at work on the sheet of two rows, nobody clicking Stop. *)
Lemma completed_counter_witness :
  excelData (Demo.settings Demo.two_rows) ≠ []
  ∧ promptColumn (Demo.settings Demo.two_rows) ≠ []
  ∧ filenameColumn (Demo.settings Demo.two_rows) ≠ []
  ∧ completed (status (handleStartBulkGeneration (Demo.settings Demo.two_rows)
                         (Demo.world AtRender None) Demo.idle)) = 2%nat
  ∧ arrivals 2 (counts (trace (handleStartBulkGeneration
                         (Demo.settings Demo.two_rows)
                         (Demo.world AtRender None) Demo.idle))) = 1%nat.
Proof.
  assert (excelData (Demo.settings Demo.two_rows) ≠ []) as H1 by done.
  assert (promptColumn (Demo.settings Demo.two_rows) ≠ []) as H2 by done.
  assert (filenameColumn (Demo.settings Demo.two_rows) ≠ []) as H3 by done.
  destruct (completed_counter (Demo.settings Demo.two_rows)
              (Demo.world AtRender None) Demo.idle H1 H2 H3)
    as (_ & _ & _ & _ & _ & Hc & Ha).
  split_and!; [exact H1|exact H2|exact H3|exact Hc|].
  etrans; [exact Ha|]. by vm_compute.
Defined.

(** ** Cancellation *)

Lemma first_stop_quiet cfg w rows : ∀ i, first_stop cfg (quiet w) i rows = None.
Proof.
  induction rows as [|row rest IH]; intros i; simpl; [done|].
  unfold stops. simpl. by rewrite andb_false_r.
Qed.

Lemma produced_all_with_rows cfg w sheet rows :
  ∀ i, produced_all (with_rows cfg sheet) w i rows = produced_all cfg w i rows.
Proof. induction rows as [|row rest IH]; intros i; simpl; [done|]. by rewrite IH. Qed.

(** Stop is first clicked while the call for row [j] is in flight.  Then
    the rows up to [j] are processed as in a run on these rows that nobody
    cancels, no call is made for a later row, and the loop logs that it was
    stopped when a row is left.  The last status says [Stopped] when React
    runs the updater at the call; when it runs it at the next render,
    [abortRef.current] has been reset and the status says [Completed!]. *)
Theorem cancellation (cfg : Settings) (w : World) (st0 : Component) (j : nat) :
  excelData cfg ≠ [] → promptColumn cfg ≠ [] → filenameColumn cfg ≠ [] →
  first_stop cfg w 0 (excelData cfg) = Some j →
  let st := handleStartBulkGeneration cfg w st0 in
  (j < length (excelData cfg))%nat
  ∧ completed (status st) = S j
  ∧ results st
    = results (handleStartBulkGeneration
                 (with_rows cfg (take (S j) (excelData cfg))) (quiet w) st0)
  ∧ j ∈ calls (trace st)
  ∧ (∀ i, i ∈ calls (trace st) → (i ≤ j)%nat)
  ∧ (lit "Process stopped by user." ∈ logged (trace st)
     ↔ (S j < length (excelData cfg))%nat)
  ∧ currentAction (status st)
    = Some (match updaters w with
            | AtCall => lit "Stopped"
            | AtRender => lit "Completed!"
            end)
  ∧ isProcessing (status st) = false
  ∧ abortRef st = false.
Proof.
  intros Hrows Hp Hf Hfs st.
  destruct (handler_outcome cfg w st0 Hrows Hp Hf)
    as (Hk & _ & Hc & Hproc & Hact & Hab & Hres & Hcalls & Hlog).
  rewrite Hfs in Hk, Hc, Hact, Hres, Hcalls, Hlog. fold st in Hc, Hproc, Hact, Hab, Hres, Hcalls, Hlog.
  assert (take (S j) (excelData cfg) ≠ []) as Hne
    by (destruct (excelData cfg); done).
  destruct (handler_outcome (with_rows cfg (take (S j) (excelData cfg)))
              (quiet w) st0 Hne Hp Hf) as (_ & _ & _ & _ & _ & _ & Hq & _).
  simpl in Hq. rewrite first_stop_quiet, firstn_all in Hq.
  rewrite produced_all_with_rows, produced_all_quiet in Hq.
  destruct (first_stop_stops _ _ _ _ _ Hfs) as (row & Hrow & Hstops).
  rewrite Nat.sub_0_r in Hrow.
  apply andb_true_iff in Hstops as [Hflight _].
  split; [lia|]. split; [exact Hc|]. split; [by rewrite Hres, Hq|].
  split.
  { rewrite Hcalls, elem_of_reverse.
    apply (called_lookup cfg _ 0 j row); [|done].
    rewrite lookup_take_lt by lia. done. }
  split.
  { intros i. rewrite Hcalls, elem_of_reverse. intros Hi%called_bounds.
    rewrite length_take in Hi. lia. }
  split; [exact Hlog|]. split; [|by split].
  rewrite Hact. destruct (updaters w); [|done].
  by rewrite bool_decide_true by eauto.
Qed.

Lemma cancellation_witness :
  first_stop (Demo.settings Demo.two_rows) (Demo.world AtCall (Some 0%nat)) 0
    Demo.two_rows = Some 0%nat
  ∧ results (Demo.cancelled AtCall 0)
    = results (handleStartBulkGeneration
                 (Demo.settings [Demo.row "A1" "a mug"])
                 (Demo.world AtCall None) Demo.idle)
  ∧ currentAction (status (Demo.cancelled AtCall 0)) = Some (lit "Stopped").
Proof.
  assert (first_stop (Demo.settings Demo.two_rows)
            (Demo.world AtCall (Some 0%nat)) 0 Demo.two_rows = Some 0%nat) as H
    by (by vm_compute).
  destruct (cancellation (Demo.settings Demo.two_rows)
              (Demo.world AtCall (Some 0%nat)) Demo.idle 0%nat)
    as (_ & _ & Hr & _ & _ & _ & Ha & _); [done|done|done|exact H|].
  split; [exact H|]. split; [by vm_compute|exact Ha].
Defined.

(** C4 at its failing input.  Stop is clicked during the first of two rows
    and React runs the updaters at the next render: the first row is
    processed, the second is not started and the loop logs that it was
    stopped, but the last status says [Completed!], not [Stopped]: the last
    updater reads [abortRef.current] after the statement that resets it. *)
Theorem stopped_status_lost :
  updaters (Demo.world AtRender (Some 0%nat)) = AtRender
  ∧ first_stop (Demo.settings Demo.two_rows) (Demo.world AtRender (Some 0%nat)) 0
      Demo.two_rows = Some 0%nat
  ∧ completed (status (Demo.cancelled AtRender 0)) = 1%nat
  ∧ calls (trace (Demo.cancelled AtRender 0)) = [0%nat]
  ∧ fileName <$> results (Demo.cancelled AtRender 0) = [lit "A1"]
  ∧ head (logs (Demo.cancelled AtRender 0)) = Some (lit "Process stopped by user.")
  ∧ currentAction (status (Demo.cancelled AtRender 0)) = Some (lit "Completed!")
  ∧ currentAction (status (Demo.cancelled AtRender 0)) ≠ Some (lit "Stopped").
Proof. split_and!; by vm_compute. Qed.

(** C10 at its failing input.  Stop is clicked during the last of two rows
    and React runs the updaters at the next render: both rows are processed,
    [completed] is [total], the loop does not log that it was stopped, the
    flag is reset, but the last status says [Completed!], not [Stopped]. *)
Theorem stop_during_last_row_lost :
  first_stop (Demo.settings Demo.two_rows) (Demo.world AtRender (Some 1%nat)) 0
    Demo.two_rows = Some 1%nat
  ∧ completed (status (Demo.cancelled AtRender 1)) = 2%nat
  ∧ total (status (Demo.cancelled AtRender 1)) = 2%nat
  ∧ calls (trace (Demo.cancelled AtRender 1)) = [1; 0]%nat
  ∧ (lit "Process stopped by user." ∉ logged (trace (Demo.cancelled AtRender 1)))
  ∧ isProcessing (status (Demo.cancelled AtRender 1)) = false
  ∧ abortRef (Demo.cancelled AtRender 1) = false
  ∧ currentAction (status (Demo.cancelled AtRender 1)) = Some (lit "Completed!")
  ∧ currentAction (status (Demo.cancelled AtRender 1)) ≠ Some (lit "Stopped").
Proof.
  do 4 (split; [by vm_compute|]). split; [|split_and!; by vm_compute].
  destruct (cancellation (Demo.settings Demo.two_rows)
    (Demo.world AtRender (Some 1%nat)) Demo.idle 1%nat)
    as (_ & _ & _ & _ & _ & Hlog & _); [done|done|done|by vm_compute|].
  intros Hin. apply Hlog in Hin. simpl in Hin. lia.
Qed.

(** ** Rows without a prompt and cells that count as false *)

(** C5. A row whose prompt, as text, is empty or made of white space only:
    no call is made, no result is appended, the skip is logged and
    [completed] goes up by one. *)
Theorem blank_prompt_skipped (cfg : Settings) (w : World) (i : nat)
    (row : ExcelRow) (st : Component) :
  Forall (λ c, Char.is_whitespace c = true) (productPrompt cfg row) →
  calls (trace (iteration cfg w i row st)) = calls (trace st)
  ∧ results (iteration cfg w i row st) = results st
  ∧ completed (status (iteration cfg w i row st)) = (completed (status st) + 1)%nat
  ∧ logged (trace (iteration cfg w i row st))
    = (lit "Skipping row " ++ str_of_nat (i + 1) ++ lit ": Empty prompt")
      :: logged (trace st)
  ∧ logs (iteration cfg w i row st)
    = take 50 ((lit "Skipping row " ++ str_of_nat (i + 1) ++ lit ": Empty prompt")
               :: logs st).
Proof.
  intros Hblank%in_flight_false. by rewrite iteration_blank.
Qed.

Lemma blank_prompt_skipped_witness :
  Forall (λ c, Char.is_whitespace c = true)
    (productPrompt (Demo.settings []) (Demo.row "A1" "  "))
  ∧ results (iteration (Demo.settings []) (Demo.world AtCall None) 1
               (Demo.row "A1" "  ") Demo.idle) = []
  ∧ completed (status (iteration (Demo.settings []) (Demo.world AtCall None) 1
               (Demo.row "A1" "  ") Demo.idle)) = 1%nat.
Proof.
  assert (Forall (λ c, Char.is_whitespace c = true)
            (productPrompt (Demo.settings []) (Demo.row "A1" "  "))) as H
    by (vm_compute; by repeat constructor).
  destruct (blank_prompt_skipped (Demo.settings []) (Demo.world AtCall None) 1
              (Demo.row "A1" "  ") Demo.idle H) as (_ & Hr & Hc & _).
  split; [exact H|]. split; [exact Hr|exact Hc].
Defined.

Lemma produced_names cfg w i row g :
  g ∈ produced cfg w i row →
  fileName g = safeFileName i (productName cfg i row)
  ∧ originalName g = Some (productName cfg i row).
Proof.
  unfold produced. destruct (in_flight cfg row); [|by intros ?%elem_of_nil].
  destruct (Service.generateImageWithGemini _); [|by intros ?%elem_of_nil].
  by intros ->%list_elem_of_singleton.
Qed.

(** C9. A prompt cell holding 0 or [false] gives the empty prompt and the
    row is skipped just as with an empty string in the cell; a file name
    cell that is missing, empty, 0 or [false] gives the name [image-<i>],
    with [i] the index of the row from 0, which is what is sanitized and
    what the result records as its original name. *)
Theorem falsy_cells (cfg : Settings) (w : World) (i : nat) (row : ExcelRow)
    (st : Component) :
  (row !! promptColumn cfg = Some (CellNumber (Int 0))
   ∨ row !! promptColumn cfg = Some (CellBoolean false) →
   productPrompt cfg row = []
   ∧ iteration cfg w i row st
     = setStatus one_more
         (addLog (lit "Skipping row " ++ str_of_nat (i + 1) ++ lit ": Empty prompt") st)
   ∧ iteration cfg w i row st
     = iteration cfg w i (<[promptColumn cfg := CellString []]> row) st)
  ∧ (row !! filenameColumn cfg = None
     ∨ row !! filenameColumn cfg = Some (CellString [])
     ∨ row !! filenameColumn cfg = Some (CellNumber (Int 0))
     ∨ row !! filenameColumn cfg = Some (CellBoolean false) →
     productName cfg i row = lit "image-" ++ str_of_nat i
     ∧ results (iteration cfg w i row st) = results st ++ produced cfg w i row
     ∧ ∀ g, g ∈ produced cfg w i row →
         fileName g = lit "image-" ++ str_of_nat i
         ∧ originalName g = Some (lit "image-" ++ str_of_nat i)).
Proof.
  split.
  - intros Hcell.
    assert (productPrompt cfg row = []) as Hp
      by (unfold productPrompt; by destruct Hcell as [-> | ->]).
    assert (in_flight cfg row = false) as Hf by (unfold in_flight; by rewrite Hp).
    assert (in_flight cfg (<[promptColumn cfg := CellString []]> row) = false) as Hf'.
    { unfold in_flight, productPrompt. by rewrite lookup_insert_eq. }
    split; [done|]. by rewrite !iteration_blank.
  - intros Hcell.
    assert (productName cfg i row = image_name i) as Hn
      by (unfold productName; by destruct Hcell as [-> | [-> | [-> | ->]]]).
    split; [done|]. split; [apply iteration_results|].
    intros g [-> ->]%produced_names.
    by rewrite Hn, safeFileName_image_name.
Qed.

Lemma falsy_cells_witness :
  <[lit "desc" := CellNumber (Int 0)]> (Demo.row "A1" "a mug")
    !! promptColumn (Demo.settings []) = Some (CellNumber (Int 0))
  ∧ productPrompt (Demo.settings [])
      (<[lit "desc" := CellNumber (Int 0)]> (Demo.row "A1" "a mug")) = []
  ∧ <[lit "sku" := CellBoolean false]> (Demo.row "A1" "a mug")
      !! filenameColumn (Demo.settings []) = Some (CellBoolean false)
  ∧ productName (Demo.settings []) 7
      (<[lit "sku" := CellBoolean false]> (Demo.row "A1" "a mug")) = lit "image-7"
  ∧ fileName <$> results (iteration (Demo.settings []) (Demo.world AtCall None) 7
      (<[lit "sku" := CellBoolean false]> (Demo.row "A1" "a mug")) Demo.idle)
    = [lit "image-7"].
Proof.
  assert (<[lit "desc" := CellNumber (Int 0)]> (Demo.row "A1" "a mug")
            !! promptColumn (Demo.settings []) = Some (CellNumber (Int 0))) as H1
    by (by vm_compute).
  assert (<[lit "sku" := CellBoolean false]> (Demo.row "A1" "a mug")
            !! filenameColumn (Demo.settings []) = Some (CellBoolean false)) as H2
    by (by vm_compute).
  split; [exact H1|]. split.
  { exact (proj1 (proj1 (falsy_cells (Demo.settings []) (Demo.world AtCall None) 7
      (<[lit "desc" := CellNumber (Int 0)]> (Demo.row "A1" "a mug")) Demo.idle)
      (or_introl H1))). }
  split; [exact H2|]. split.
  { exact (proj1 (proj2 (falsy_cells (Demo.settings []) (Demo.world AtCall None) 7
      (<[lit "sku" := CellBoolean false]> (Demo.row "A1" "a mug")) Demo.idle)
      (or_intror (or_intror (or_intror H2))))). }
  by vm_compute.
Defined.

(** ** Archive export *)

Lemma get_not_inherited (usedNames : gmap (list N) number) name :
  ¬ Archive.inherited name →
  Archive.get usedNames name
  = match usedNames !! name with
    | Some n => Archive.Own n
    | None => Archive.Undefined
    end.
Proof.
  intros Hn. unfold Archive.get. destruct (usedNames !! name); [done|].
  rewrite !bool_decide_false; [done|intros ?; apply Hn; by right
                              |intros ?; apply Hn; by left].
Qed.

Lemma set_not_inherited (usedNames : gmap (list N) number) name n :
  ¬ Archive.inherited name →
  Archive.set usedNames name n = <[name := n]> usedNames.
Proof.
  intros Hn. unfold Archive.set. rewrite bool_decide_false; [done|].
  intros ?. apply Hn. by left.
Qed.

Lemma seen_cons_eq name earlier :
  Archive.seen name (name :: earlier) = S (Archive.seen name earlier).
Proof. unfold Archive.seen. by rewrite filter_cons_True. Qed.

Lemma seen_cons_ne name other earlier :
  other ≠ name → Archive.seen name (other :: earlier) = Archive.seen name earlier.
Proof. intros H. unfold Archive.seen. by rewrite filter_cons_False. Qed.

Lemma str_of_nat_Z k : lit (pretty (Z.of_nat (S k))) = str_of_nat (S k).
Proof. reflexivity. Qed.

Lemma rename_counting usedNames earlier name :
  ¬ Archive.inherited name → Archive.counting usedNames earlier →
  (Archive.rename usedNames name).2 = Archive.specified_name earlier name
  ∧ Archive.counting (Archive.rename usedNames name).1 (name :: earlier).
Proof.
  intros Hn Hcount. unfold Archive.rename, Archive.specified_name.
  pose proof (get_not_inherited usedNames name Hn) as Hget.
  rewrite Hcount in Hget. rewrite !Hget.
  destruct (Archive.seen name earlier) as [|k] eqn:Hseen.
  - cbn [Archive.truthy fst snd]. rewrite set_not_inherited by done.
    split; [done|]. intros other.
    destruct (decide (other = name)) as [->|Hne].
    + by rewrite lookup_insert_eq, seen_cons_eq, Hseen.
    + by rewrite lookup_insert_ne, seen_cons_ne, Hcount.
  - cbn [Archive.truthy truthy_number Archive.to_number Archive.succ].
    replace (Z.of_nat (S k) =? 0)%Z with false by (symmetry; apply Z.eqb_neq; lia).
    cbn [negb fst snd].
    rewrite set_not_inherited, get_not_inherited, lookup_insert_eq by done.
    replace (Z.of_nat (S k) + 1)%Z with (Z.of_nat (S (S k))) by lia.
    split; [by cbn [Archive.to_string String_number]; rewrite str_of_nat_Z|].
    intros other. destruct (decide (other = name)) as [->|Hne].
    + by rewrite lookup_insert_eq, seen_cons_eq, Hseen.
    + by rewrite lookup_insert_ne, seen_cons_ne, Hcount.
Qed.

Lemma forEach_counting results :
  ∀ usedNames earlier,
    Forall (λ img, ¬ Archive.inherited (fileName img)) results →
    Archive.counting usedNames earlier →
    Archive.entryName <$> Archive.forEach usedNames results
    = Archive.specified_names earlier (fileName <$> results).
Proof.
  induction results as [|img rest IH]; intros usedNames earlier Hall Hcount; [done|].
  apply Forall_cons in Hall as [Hn Hall].
  destruct (rename_counting usedNames earlier (fileName img) Hn Hcount)
    as [Hname Hcount'].
  cbn [Archive.forEach].
  destruct (Archive.rename usedNames (fileName img)) as [usedNames' name].
  simpl in Hname, Hcount'. rewrite fmap_cons. cbn [Archive.entryName].
  rewrite (IH usedNames' (fileName img :: earlier)) by done.
  by rewrite Hname.
Qed.

(** X13. For file names that [Object.prototype] has no property for, the
    names of the entries are those of the specified policy: the first
    result of a name keeps it, the k-th gets [_k]. *)
Theorem archive_names (results : list GeneratedImage) :
  Forall (λ img, ¬ Archive.inherited (fileName img)) results →
  Archive.entryName <$> Archive.forEach ∅ results
  = Archive.specified_names [] (fileName <$> results).
Proof. intros Hall. by apply forEach_counting. Qed.

Lemma archive_names_witness :
  Forall (λ img, ¬ Archive.inherited (fileName img))
    [Demo.image "a"; Demo.image "a"; Demo.image "a"]
  ∧ Archive.entryName
      <$> Archive.forEach ∅ [Demo.image "a"; Demo.image "a"; Demo.image "a"]
    = [lit "a.png"; lit "a_2.png"; lit "a_3.png"].
Proof.
  assert (Forall (λ img, ¬ Archive.inherited (fileName img))
            [Demo.image "a"; Demo.image "a"; Demo.image "a"]) as H.
  { assert (¬ Archive.inherited (lit "a")) as Ha.
    { intros [H|H]; [discriminate H|]. apply list_elem_of_In in H.
      vm_compute in H. intuition discriminate. }
    by repeat (apply Forall_cons; split; [exact Ha|]). }
  split; [exact H|]. etrans; [exact (archive_names _ H)|]. by vm_compute.
Defined.

(** C2 at its failing input.  [usedNames] is a plain object, so the name
    [constructor] is found in [Object.prototype] at its first occurrence:
    the first entry is renamed, with the suffix [_NaN], the second keeps
    the name and the third gets the suffix [_2], where the policy gives
    [constructor.png], [constructor_2.png] and [constructor_3.png].  The
    names [a], [a], [a] of the specification come out as specified. *)
Theorem archive_names_prototype :
  safeFileName 0 (lit "constructor") = lit "constructor"
  ∧ Archive.downloadAllAsZip
      [Demo.image "constructor"; Demo.image "constructor"; Demo.image "constructor"]
    = Some [Archive.mkEntry (lit "constructor_NaN.png") (Some (lit "AAAA"));
            Archive.mkEntry (lit "constructor.png") (Some (lit "AAAA"));
            Archive.mkEntry (lit "constructor_2.png") (Some (lit "AAAA"))]
  ∧ Archive.specified_names [] [lit "constructor"; lit "constructor"; lit "constructor"]
    = [lit "constructor.png"; lit "constructor_2.png"; lit "constructor_3.png"]
  ∧ Archive.downloadAllAsZip [Demo.image "a"; Demo.image "a"; Demo.image "a"]
    = Some [Archive.mkEntry (lit "a.png") (Some (lit "AAAA"));
            Archive.mkEntry (lit "a_2.png") (Some (lit "AAAA"));
            Archive.mkEntry (lit "a_3.png") (Some (lit "AAAA"))].
Proof. split_and!; by vm_compute. Qed.

(** ** The scenario of the specification *)

(** Rows [{sku: A1, desc: a mug}], [{sku: A1, desc: ""}] and
    [{sku: B2, desc: a hat}]: the first and the third row give [A1] and
    [B2], the second is skipped, [completed] ends at 3 with two results, and
    the archive has [A1.png] and [B2.png]. *)
Example scenario_three_rows :
  completed (status (handleStartBulkGeneration (Demo.settings Demo.three_rows)
                       (Demo.world AtRender None) Demo.idle)) = 3%nat
  ∧ fileName <$> results (handleStartBulkGeneration (Demo.settings Demo.three_rows)
                            (Demo.world AtRender None) Demo.idle)
    = [lit "A1"; lit "B2"]
  ∧ prompt <$> results (handleStartBulkGeneration (Demo.settings Demo.three_rows)
                          (Demo.world AtRender None) Demo.idle)
    = [lit "studio lighting. a mug"; lit "studio lighting. a hat"]
  ∧ calls (trace (handleStartBulkGeneration (Demo.settings Demo.three_rows)
                    (Demo.world AtRender None) Demo.idle)) = [2; 0]%nat
  ∧ ((λ entries : list Archive.entry, Archive.entryName <$> entries)
       <$> Archive.downloadAllAsZip
             (results (handleStartBulkGeneration (Demo.settings Demo.three_rows)
                         (Demo.world AtRender None) Demo.idle)))
    = Some [lit "A1.png"; lit "B2.png"].
Proof. split_and!; by vm_compute. Qed.

(** * Further properties of the code *)

(** ** Data URLs: from the response to the archive and to the request *)

Lemma split_no_separator sep s : sep ∉ s → Archive.split sep s = [s].
Proof.
  induction s as [|c s IH]; [done|]. intros Hs.
  apply not_elem_of_cons in Hs as [Hc Hs]. simpl.
  destruct (N.eqb_spec c sep) as [->|_]; [done|]. by rewrite IH.
Qed.

Lemma split_at_separator sep a b :
  sep ∉ a → Archive.split sep (a ++ sep :: b) = a :: Archive.split sep b.
Proof.
  induction a as [|c a IH]; intros Ha; simpl.
  - by rewrite N.eqb_refl.
  - apply not_elem_of_cons in Ha as [Hc Ha].
    destruct (N.eqb_spec c sep) as [->|_]; [done|]. by rewrite IH.
Qed.

Lemma split_second_Some sep s : sep ∈ s → is_Some (Archive.split sep s !! 1%nat).
Proof.
  induction s as [|c s IH]; [by intros ?%elem_of_nil|]. intros Hs. simpl.
  destruct (N.eqb_spec c sep) as [->|Hne].
  - destruct s as [|d s]; [by eexists|]. simpl.
    destruct (d =? sep); [by eexists|]. destruct (Archive.split sep s); by eexists.
  - apply elem_of_cons in Hs as [->|Hs]; [done|]. specialize (IH Hs).
    destruct (Archive.split sep s) as [|piece pieces]; [by destruct IH|exact IH].
Qed.

(** The piece after the first comma of a data URL is its data, when
    neither the media type nor the data holds a comma. *)
Lemma data_url_second mime d :
  44 ∉ mime → 44 ∉ d →
  Archive.split 44 (lit "data:" ++ mime ++ lit ";base64," ++ d) !! 1%nat = Some d.
Proof.
  intros Hm Hd.
  replace (lit "data:" ++ mime ++ lit ";base64," ++ d)
    with ((lit "data:" ++ mime ++ lit ";base64") ++ 44 :: d)
    by (by rewrite <- !app_assoc).
  rewrite split_at_separator, split_no_separator; [done|done|].
  rewrite !elem_of_app. intros [H|[H|H]]; [|done|].
  - apply list_elem_of_In in H. vm_compute in H. intuition discriminate.
  - apply list_elem_of_In in H. vm_compute in H. intuition discriminate.
Qed.

Lemma payload_shape part imageUrl :
  Service.payload part = Some imageUrl →
  ∃ blob mime d,
    Service.inlineData part = Some blob
    ∧ Service.data blob = Some d ∧ d ≠ []
    ∧ mime ≠ []
    ∧ (Service.mimeType blob = Some mime
       ∨ mime = lit "image/png"
         ∧ (Service.mimeType blob = None ∨ Service.mimeType blob = Some []))
    ∧ imageUrl = lit "data:" ++ mime ++ lit ";base64," ++ d.
Proof.
  unfold Service.payload. intros H.
  destruct (Service.inlineData part) as [blob|]; [|done].
  cbn -[lit] in H. destruct (Service.data blob) as [d|] eqn:Hdata; [|done].
  cbn -[lit] in H. case_bool_decide as Hd; [done|].
  assert (lit "image/png" ≠ []) as Hpng by done.
  destruct (Service.mimeType blob) as [m|] eqn:Hm.
  - case_bool_decide as Hm'.
    + subst m. exists blob, (lit "image/png"), d.
      refine (conj eq_refl (conj Hdata (conj Hd (conj Hpng (conj _ _))))).
      * right. auto.
      * by injection H as <-.
    + exists blob, m, d.
      refine (conj eq_refl (conj Hdata (conj Hd (conj Hm' (conj _ _))))).
      * by left.
      * by injection H as <-.
  - exists blob, (lit "image/png"), d.
    refine (conj eq_refl (conj Hdata (conj Hd (conj Hpng (conj _ _))))).
    + right. auto.
    + by injection H as <-.
Qed.

(** X9. What the generation service returns is a data URL: [data:], a media
    type that is not empty, [;base64,] and inline data that is not empty,
    taken from a part of the first candidate. *)
Theorem generate_returns_data_url (reply : Service.api_reply) (imageUrl : jsstring) :
  Service.generateImageWithGemini reply = Service.Returned imageUrl →
  ∃ response part mime d,
    reply = Service.Resolves response
    ∧ part ∈ Service.first_parts response
    ∧ (Service.inlineData part ≫= Service.data) = Some d
    ∧ d ≠ [] ∧ mime ≠ []
    ∧ imageUrl = lit "data:" ++ mime ++ lit ";base64," ++ d.
Proof.
  rewrite generate_extract. destruct reply as [err|response]; [done|].
  destruct (Service.extractImageFromResponse response) as [u|] eqn:Hu; [|done].
  intros [= <-]. rewrite extract_first_parts in Hu.
  apply first_inline_Some in Hu as (before & part & after & Hparts & _ & Hp).
  apply payload_shape in Hp as (blob & mime & d & Hb & Hd & Hne & Hm & _ & ->).
  exists response, part, mime, d. split; [done|]. split.
  { rewrite Hparts. apply elem_of_app. right. apply list_elem_of_here. }
  split; [by rewrite Hb|]. by split_and!.
Qed.

Lemma generate_returns_data_url_witness :
  Service.generateImageWithGemini (Service.Resolves Demo.response)
  = Service.Returned (lit "data:image/png;base64,AAAA")
  ∧ ∃ response part mime d,
      Service.Resolves Demo.response = Service.Resolves response
      ∧ part ∈ Service.first_parts response
      ∧ (Service.inlineData part ≫= Service.data) = Some d
      ∧ d ≠ [] ∧ mime ≠ []
      ∧ lit "data:image/png;base64,AAAA" = lit "data:" ++ mime ++ lit ";base64," ++ d.
Proof.
  assert (Service.generateImageWithGemini (Service.Resolves Demo.response)
          = Service.Returned (lit "data:image/png;base64,AAAA")) as H
    by (by vm_compute).
  split; [exact H|]. exact (generate_returns_data_url _ _ H).
Defined.

(** ** The results of a run *)



Lemma produced_all_length cfg w rows :
  ∀ i, (length (produced_all cfg w i rows) ≤ length (called cfg i rows))%nat.
Proof.
  induction rows as [|row rest IH]; intros i; simpl; [done|].
  rewrite !length_app. specialize (IH (S i)).
  unfold produced. destruct (in_flight cfg row); simpl; [|lia].
  destruct (Service.generateImageWithGemini _); simpl; lia.
Qed.

Lemma called_length cfg rows :
  ∀ i, (length (called cfg i rows) ≤ length rows)%nat.
Proof.
  induction rows as [|row rest IH]; intros i; simpl; [done|].
  rewrite length_app. specialize (IH (S i)).
  destruct (in_flight cfg row); simpl; lia.
Qed.



(** X3. In every run there are no more results than calls made, no more
    calls than rows counted as completed, and no more of these than rows. *)
Theorem results_bounded (cfg : Settings) (w : World) (st0 : Component) :
  excelData cfg ≠ [] → promptColumn cfg ≠ [] → filenameColumn cfg ≠ [] →
  (length (results (handleStartBulkGeneration cfg w st0))
   ≤ length (calls (trace (handleStartBulkGeneration cfg w st0))))%nat
  ∧ (length (calls (trace (handleStartBulkGeneration cfg w st0)))
     ≤ completed (status (handleStartBulkGeneration cfg w st0)))%nat
  ∧ (completed (status (handleStartBulkGeneration cfg w st0))
     ≤ total (status (handleStartBulkGeneration cfg w st0)))%nat
  ∧ total (status (handleStartBulkGeneration cfg w st0)) = length (excelData cfg).
Proof.
  intros Hrows Hp Hf.
  destruct (handler_outcome cfg w st0 Hrows Hp Hf)
    as (Hk & (Hn & _) & Hc & _ & _ & _ & Hres & Hcalls & _).
  rewrite Hres, Hcalls, Hc, Hn, length_reverse.
  set (k := match first_stop cfg w 0 (excelData cfg) with
            | Some j => S j
            | None => length (excelData cfg)
            end) in *.
  split_and!; [apply produced_all_length| |exact Hk|done].
  etrans; [apply called_length|]. rewrite length_take. lia.
Qed.

Lemma results_bounded_witness :
  excelData (Demo.settings Demo.three_rows) ≠ []
  ∧ promptColumn (Demo.settings Demo.three_rows) ≠ []
  ∧ filenameColumn (Demo.settings Demo.three_rows) ≠ []
  ∧ (length (results (handleStartBulkGeneration (Demo.settings Demo.three_rows)
                        (Demo.world AtRender None) Demo.idle))
     ≤ length (calls (trace (handleStartBulkGeneration (Demo.settings Demo.three_rows)
                        (Demo.world AtRender None) Demo.idle))))%nat.
Proof.
  assert (excelData (Demo.settings Demo.three_rows) ≠ []) as H1 by done.
  assert (promptColumn (Demo.settings Demo.three_rows) ≠ []) as H2 by done.
  assert (filenameColumn (Demo.settings Demo.three_rows) ≠ []) as H3 by done.
  split_and!; [exact H1|exact H2|exact H3|].
  exact (proj1 (results_bounded _ (Demo.world AtRender None) Demo.idle H1 H2 H3)).
Defined.

Lemma first_stop_never cfg w rows :
  (∀ i, stop_clicked (around w i) = false) →
  ∀ i, first_stop cfg w i rows = None.
Proof.
  intros Hw. induction rows as [|row rest IH]; intros i; simpl; [done|].
  unfold stops. by rewrite Hw, andb_false_r.
Qed.

Lemma produced_all_thrown cfg w rows :
  (∀ i, ∃ err, Service.generateImageWithGemini (reply (around w i))
               = Service.Thrown err) →
  ∀ i, produced_all cfg w i rows = [].
Proof.
  intros Hw. induction rows as [|row rest IH]; intros i; simpl; [done|].
  rewrite IH, app_nil_r. unfold produced. destruct (Hw i) as [err ->].
  by destruct (in_flight cfg row).
Qed.

(** X4. A failing call does not end the run.  When every call throws and
    nobody clicks Stop, every row is still processed: a call is made for
    each row with a prompt, [completed] ends at [total], there is no
    result, and the run ends as completed. *)
Theorem failures_do_not_stop_the_run (cfg : Settings) (w : World) (st0 : Component) :
  excelData cfg ≠ [] → promptColumn cfg ≠ [] → filenameColumn cfg ≠ [] →
  (∀ i, stop_clicked (around w i) = false) →
  (∀ i, ∃ err, Service.generateImageWithGemini (reply (around w i))
               = Service.Thrown err) →
  results (handleStartBulkGeneration cfg w st0) = []
  ∧ completed (status (handleStartBulkGeneration cfg w st0))
    = length (excelData cfg)
  ∧ calls (trace (handleStartBulkGeneration cfg w st0))
    = reverse (called cfg 0 (excelData cfg))
  ∧ currentAction (status (handleStartBulkGeneration cfg w st0))
    = Some (lit "Completed!")
  ∧ isProcessing (status (handleStartBulkGeneration cfg w st0)) = false.
Proof.
  intros Hrows Hp Hf Hquiet Hthrow.
  destruct (handler_outcome cfg w st0 Hrows Hp Hf)
    as (_ & _ & Hc & Hproc & Hact & _ & Hres & Hcalls & _).
  rewrite (first_stop_never cfg w _ Hquiet) in Hc, Hact, Hres, Hcalls.
  rewrite firstn_all in Hres, Hcalls.
  rewrite Hres, Hc, Hcalls, Hact, Hproc, (produced_all_thrown cfg w _ Hthrow).
  split_and!; try done. by destruct (updaters w).
Qed.

Lemma failures_do_not_stop_the_run_witness :
  excelData (Demo.settings Demo.three_rows) ≠ []
  ∧ (∀ i, stop_clicked (around (mkWorld AtRender (λ i,
            mkSurroundings (Service.Rejects (lit "quota")) [] 0 false)) i) = false)
  ∧ completed (status (handleStartBulkGeneration (Demo.settings Demo.three_rows)
      (mkWorld AtRender (λ i,
         mkSurroundings (Service.Rejects (lit "quota")) [] 0 false)) Demo.idle))
    = 3%nat.
Proof.
  assert (∀ i, stop_clicked (around (mkWorld AtRender (λ i,
            mkSurroundings (Service.Rejects (lit "quota")) [] 0 false)) i) = false)
    as Hq by done.
  split; [done|]. split; [exact Hq|].
  refine (proj1 (proj2 (failures_do_not_stop_the_run
    (Demo.settings Demo.three_rows) _ Demo.idle _ _ _ Hq _))); try done.
  intros i. by eexists.
Defined.

(** ** The log *)

Lemma take_cons_take {A} (n : nat) (x : A) (l : list A) :
  take (S n) (x :: take (S n) l) = take (S n) (x :: l).
Proof. simpl. f_equal. rewrite take_take. f_equal. lia. Qed.

Lemma log_kept_addLog before msg st :
  log_kept before st → log_kept before (addLog msg st).
Proof.
  unfold log_kept. intros H. cbn [logs trace addLog logged omap].
  change (logged (EvLog msg :: trace st)) with (msg :: logged (trace st)).
  rewrite H. apply (take_cons_take 49).
Qed.

Lemma log_kept_setStatus before f st :
  log_kept before st → log_kept before (setStatus f st).
Proof. done. Qed.

Lemma log_kept_stopGeneration before st :
  log_kept before st → log_kept before (stopGeneration st).
Proof.
  unfold stopGeneration. destruct (isProcessing (status st)); [|done].
  intros H. by apply log_kept_addLog.
Qed.

Lemma log_kept_iteration before cfg w i row st :
  log_kept before st → log_kept before (iteration cfg w i row st).
Proof.
  intros H. unfold iteration.
  destruct (truthy_str (trim (productPrompt cfg row))); cbn [negb].
  - apply log_kept_setStatus.
    set (st1 := record_event _ _).
    assert (log_kept before st1) as H1 by done.
    assert (log_kept before
              (if stop_clicked (around w i) then stopGeneration st1 else st1)) as H2
      by (destruct (stop_clicked (around w i));
            [by apply log_kept_stopGeneration|done]).
    destruct (Service.generateImageWithGemini _);
      by apply log_kept_addLog.
  - by apply log_kept_setStatus, log_kept_addLog.
Qed.

Lemma log_kept_loop before cfg w rows :
  ∀ i st, log_kept before st → log_kept before (loop cfg w i rows st).
Proof.
  induction rows as [|row rest IH]; intros i st H; simpl; [done|].
  destruct (abortRef st); [by apply log_kept_addLog|].
  by apply IH, log_kept_iteration.
Qed.

(** X8. The log never holds more than 50 messages, and after a run it is
    the last 50 of what the run logged, the latest first, followed by what
    the log held before. *)
Theorem log_after_run (cfg : Settings) (w : World) (st0 : Component) :
  excelData cfg ≠ [] → promptColumn cfg ≠ [] → filenameColumn cfg ≠ [] →
  logs (handleStartBulkGeneration cfg w st0)
  = take 50 (logged (trace (handleStartBulkGeneration cfg w st0)) ++ logs st0)
  ∧ (length (logs (handleStartBulkGeneration cfg w st0)) ≤ 50)%nat
  ∧ last (logged (trace (handleStartBulkGeneration cfg w st0)))
    = Some (lit "Starting bulk generation...")
  ∧ ∀ msg st, (length (logs (addLog msg st)) ≤ 50)%nat
              ∧ head (logs (addLog msg st)) = Some msg.
Proof.
  intros Hrows Hp Hf.
  assert (log_kept (logs st0) (handleStartBulkGeneration cfg w st0)) as Hkept.
  { rewrite handler_guard by done.
    assert (log_kept (logs st0) (loop cfg w 0 (excelData cfg) (started cfg st0)))
      as H by (by apply log_kept_loop).
    by destruct (updaters w). }
  split; [exact Hkept|]. split; [rewrite Hkept, length_take; lia|]. split.
  - rewrite handler_guard by done.
    assert (∀ rows i st,
      last (logged (trace st)) = Some (lit "Starting bulk generation...") →
      last (logged (trace (loop cfg w i rows st)))
      = Some (lit "Starting bulk generation...")) as Hlast.
    { assert (∀ st msg,
        last (logged (trace st)) = Some (lit "Starting bulk generation...") →
        last (logged (trace (addLog msg st)))
        = Some (lit "Starting bulk generation...")) as Hadd.
      { intros st msg H.
        change (logged (trace (addLog msg st))) with (msg :: logged (trace st)).
        destruct (logged (trace st)); [done|]. by rewrite last_cons_cons. }
      induction rows as [|row rest IH]; intros i st H; simpl; [done|].
      destruct (abortRef st); [by apply Hadd|]. apply IH.
      unfold iteration.
      destruct (truthy_str (trim (productPrompt cfg row))); cbn [negb].
      - set (st1 := record_event _ _).
        assert (last (logged (trace st1))
                = Some (lit "Starting bulk generation...")) as H1 by done.
        assert (last (logged (trace
                  (if stop_clicked (around w i) then stopGeneration st1 else st1)))
                = Some (lit "Starting bulk generation...")) as H2.
        { destruct (stop_clicked (around w i)); [|done]. unfold stopGeneration.
          destruct (isProcessing (status st1)); [|done]. by apply Hadd. }
        destruct (Service.generateImageWithGemini _); by apply Hadd.
      - by apply Hadd. }
    specialize (Hlast (excelData cfg) 0%nat (started cfg st0) eq_refl).
    by destruct (updaters w).
  - intros msg st. split; [|done]. simpl. rewrite length_take. lia.
Qed.

Lemma log_after_run_witness :
  excelData (Demo.settings Demo.two_rows) ≠ []
  ∧ promptColumn (Demo.settings Demo.two_rows) ≠ []
  ∧ filenameColumn (Demo.settings Demo.two_rows) ≠ []
  ∧ logs (Demo.cancelled AtCall 0)
    = [lit "Process stopped by user."; lit "Success: A1";
       lit "Stopping generation after current item finishes...";
       lit "Starting bulk generation..."].
Proof.
  assert (excelData (Demo.settings Demo.two_rows) ≠ []) as H1 by done.
  assert (promptColumn (Demo.settings Demo.two_rows) ≠ []) as H2 by done.
  assert (filenameColumn (Demo.settings Demo.two_rows) ≠ []) as H3 by done.
  split_and!; [exact H1|exact H2|exact H3|].
  etrans; [exact (proj1 (log_after_run _ (Demo.world AtCall (Some 0%nat))
                           Demo.idle H1 H2 H3))|].
  by vm_compute.
Defined.

(** X6. A run starts afresh.  The component a run leaves depends on the one
    it starts from through the log only: earlier results, the earlier
    status and a Stop request left over are forgotten. *)
Theorem run_starts_afresh (cfg : Settings) (w : World) (st0 st0' : Component) :
  excelData cfg ≠ [] → promptColumn cfg ≠ [] → filenameColumn cfg ≠ [] →
  logs st0 = logs st0' →
  handleStartBulkGeneration cfg w st0 = handleStartBulkGeneration cfg w st0'.
Proof.
  intros Hrows Hp Hf Hlogs. rewrite !handler_guard by done.
  assert (started cfg st0 = started cfg st0') as ->; [|done].
  unfold started, addLog, setResults, setStatus. simpl. by rewrite Hlogs.
Qed.

Lemma run_starts_afresh_witness :
  logs Demo.idle = logs (mkComponent (mkStatus 9 9 true None) [Demo.image "old"] [] true [])
  ∧ handleStartBulkGeneration (Demo.settings Demo.two_rows) (Demo.world AtCall None)
      Demo.idle
    = handleStartBulkGeneration (Demo.settings Demo.two_rows) (Demo.world AtCall None)
        (mkComponent (mkStatus 9 9 true None) [Demo.image "old"] [] true []).
Proof.
  split; [done|].
  apply (run_starts_afresh (Demo.settings Demo.two_rows) (Demo.world AtCall None));
    done.
Defined.

(** ** The archive *)

Lemma comma_in_data_url mime d : 44 ∈ lit "data:" ++ mime ++ lit ";base64," ++ d.
Proof.
  rewrite !elem_of_app. right. right. left.
  apply list_elem_of_In. vm_compute. tauto.
Qed.

(** X10. The data of an image survives the way from the response into the
    archive.  When the part returned by the service as [imageUrl] has a
    media type and data without a comma, the data put in the archive for a
    result with that URL is the inline data of the part. *)
Theorem archive_data_round_trip (part : Service.Part) (img : GeneratedImage) :
  Service.payload part = Some (url img) →
  (∀ blob, Service.inlineData part = Some blob →
           (44 ∉ default [] (Service.data blob))
           ∧ (44 ∉ default [] (Service.mimeType blob))) →
  Archive.base64Data img = Service.inlineData part ≫= Service.data.
Proof.
  intros Hp Hcomma.
  destruct (payload_shape _ _ Hp) as (blob & mime & d & Hb & Hd & _ & _ & Hm & Hurl).
  destruct (Hcomma blob Hb) as [Hcd Hcm]. rewrite Hd in Hcd. simpl in Hcd.
  unfold Archive.base64Data. rewrite Hurl, Hb. simpl. rewrite Hd.
  apply data_url_second; [|done].
  destruct Hm as [Hm|[-> _]].
  - by rewrite Hm in Hcm.
  - intros H. apply list_elem_of_In in H. vm_compute in H. intuition discriminate.
Qed.

Lemma archive_data_round_trip_witness :
  Service.payload (Service.mkPart None
     (Some (Service.mkInline (Some (lit "AAAA")) (Some (lit "image/jpeg")))))
  = Some (url (mkImage [] (lit "data:image/jpeg;base64,AAAA") [] (lit "a") None 0))
  ∧ Archive.base64Data (mkImage [] (lit "data:image/jpeg;base64,AAAA") [] (lit "a") None 0)
    = Some (lit "AAAA").
Proof.
  assert (Service.payload (Service.mkPart None
     (Some (Service.mkInline (Some (lit "AAAA")) (Some (lit "image/jpeg")))))
    = Some (url (mkImage [] (lit "data:image/jpeg;base64,AAAA") [] (lit "a") None 0)))
    as H by (by vm_compute).
  split; [exact H|].
  apply (archive_data_round_trip _ _ H).
  intros blob [= <-]. simpl.
  split; intros Hin; apply list_elem_of_In in Hin; vm_compute in Hin;
    intuition discriminate.
Defined.

Lemma elem_of_produced_all cfg w rows img :
  ∀ i, img ∈ produced_all cfg w i rows → ∃ j row, img ∈ produced cfg w j row.
Proof.
  induction rows as [|row rest IH]; intros i; simpl.
  - by intros ?%elem_of_nil.
  - intros [H|H]%elem_of_app; [eauto|by eapply IH].
Qed.

Lemma generate_returned_comma reply imageUrl :
  Service.generateImageWithGemini reply = Service.Returned imageUrl →
  44 ∈ imageUrl.
Proof.
  rewrite generate_extract. destruct reply as [err|response]; [done|].
  destruct (Service.extractImageFromResponse response) as [u|] eqn:Hu; [|done].
  intros [= <-]. rewrite extract_first_parts in Hu.
  apply first_inline_Some in Hu as (_ & part & _ & _ & _ & Hp).
  apply payload_shape in Hp as (_ & mime & d & _ & _ & _ & _ & _ & ->).
  apply comma_in_data_url.
Qed.

(** X11. Every result of a run has data for the archive: its URL has a
    comma, so [url.split(',')[1]] is never [undefined]. *)
Theorem results_have_data (cfg : Settings) (w : World) (st0 : Component)
    (img : GeneratedImage) :
  excelData cfg ≠ [] → promptColumn cfg ≠ [] → filenameColumn cfg ≠ [] →
  img ∈ results (handleStartBulkGeneration cfg w st0) →
  is_Some (Archive.base64Data img).
Proof.
  intros Hrows Hp Hf.
  destruct (handler_outcome cfg w st0 Hrows Hp Hf)
    as (_ & _ & _ & _ & _ & _ & -> & _).
  intros (i & row & Himg)%elem_of_produced_all.
  unfold produced in Himg. destruct (in_flight cfg row); [|by apply elem_of_nil in Himg].
  destruct (Service.generateImageWithGemini _) as [imageUrl|] eqn:Hg;
    [|by apply elem_of_nil in Himg].
  apply list_elem_of_singleton in Himg as ->.
  apply generate_returned_comma in Hg. by apply split_second_Some.
Qed.

Lemma results_have_data_witness :
  excelData (Demo.settings Demo.two_rows) ≠ []
  ∧ promptColumn (Demo.settings Demo.two_rows) ≠ []
  ∧ filenameColumn (Demo.settings Demo.two_rows) ≠ []
  ∧ Forall (λ img, is_Some (Archive.base64Data img))
      (results (handleStartBulkGeneration (Demo.settings Demo.two_rows)
                  (Demo.world AtCall None) Demo.idle)).
Proof.
  assert (excelData (Demo.settings Demo.two_rows) ≠ []) as H1 by done.
  assert (promptColumn (Demo.settings Demo.two_rows) ≠ []) as H2 by done.
  assert (filenameColumn (Demo.settings Demo.two_rows) ≠ []) as H3 by done.
  split_and!; [exact H1|exact H2|exact H3|].
  apply Forall_forall. intros img Himg.
  exact (results_have_data _ _ _ img H1 H2 H3 Himg).
Defined.

Lemma rename_shape usedNames name :
  ∃ suffix, (Archive.rename usedNames name).2 = name ++ suffix.
Proof.
  unfold Archive.rename. destruct (Archive.truthy _); simpl.
  - by eexists.
  - exists []. by rewrite app_nil_r.
Qed.

Lemma forEach_entries results :
  ∀ usedNames,
    Archive.entryData <$> Archive.forEach usedNames results
    = Archive.base64Data <$> results
    ∧ Forall2 (λ entry img, ∃ suffix,
                 Archive.entryName entry = fileName img ++ suffix ++ lit ".png")
              (Archive.forEach usedNames results) results.
Proof.
  induction results as [|img rest IH]; intros usedNames; [by split|].
  cbn [Archive.forEach].
  destruct (rename_shape usedNames (fileName img)) as [suffix Hsuffix].
  destruct (Archive.rename usedNames (fileName img)) as [usedNames' name].
  simpl in Hsuffix. subst name. destruct (IH usedNames') as [Hdata Hnames].
  split.
  - rewrite !fmap_cons, Hdata. done.
  - constructor; [|done]. exists suffix. cbn [Archive.entryName].
    by rewrite <- app_assoc.
Qed.

(** X12. The archive gets one entry for each result, in the order of the
    results: its name is the file name of the result, possibly with a
    suffix, and [.png], and its data is the part of the URL of that result
    after the first comma.  With no result no archive is built. *)
Theorem archive_entries :
  Archive.downloadAllAsZip [] = None
  ∧ ∀ img rest,
      ∃ entries,
        Archive.downloadAllAsZip (img :: rest) = Some entries
        ∧ length entries = length (img :: rest)
        ∧ Archive.entryData <$> entries = Archive.base64Data <$> img :: rest
        ∧ Forall2 (λ entry img, ∃ suffix,
                     Archive.entryName entry = fileName img ++ suffix ++ lit ".png")
                  entries (img :: rest).
Proof.
  split; [done|]. intros img rest. unfold Archive.downloadAllAsZip.
  cbn [length Nat.eqb]. eexists. split; [done|].
  destruct (forEach_entries (img :: rest) ∅) as [Hdata Hnames].
  split; [|done]. by apply Forall2_length in Hnames.
Qed.

Lemma lit_inj s s' : lit s = lit s' → s = s'.
Proof.
  revert s'. induction s as [|a s IH]; intros [|a' s']; try done.
  rewrite !lit_String. intros [= Ha Hs]. f_equal; [|by apply IH].
  by rewrite <- (ascii_N_embedding a), <- (ascii_N_embedding a'), Ha.
Qed.

Lemma str_of_nat_inj n m : str_of_nat n = str_of_nat m → n = m.
Proof. intros H%lit_inj. by apply (inj pretty). Qed.

Lemma str_of_nat_no_underscore n : Char.underscore ∉ str_of_nat n.
Proof.
  intros H. pose proof (str_of_nat_digits n) as Hd.
  rewrite Forall_forall in Hd. by specialize (Hd _ H).
Qed.

(** Two names with a counter after the last underscore are equal only when
    the stems and the counters are. *)
Lemma last_underscore a b da db :
  Char.underscore ∉ da → Char.underscore ∉ db →
  a ++ Char.underscore :: da = b ++ Char.underscore :: db → a = b ∧ da = db.
Proof.
  intros Ha Hb. revert b. induction a as [|x a IH]; intros [|y b] H; simpl in H.
  - by injection H as ->.
  - injection H as <- ->. destruct Ha. rewrite elem_of_app. right. left.
  - injection H as -> <-. destruct Hb. rewrite elem_of_app. right. left.
  - injection H as -> H. by destruct (IH _ H) as [-> ->].
Qed.

Lemma numbered_inj (P : jsstring → Prop) f g c c' :
  (∀ f g k, P f → P g → f ≠ g ++ lit "_" ++ str_of_nat k) →
  P f → P g → numbered f c = numbered g c' → f = g ∧ c = c'.
Proof.
  intros HP Hf Hg. destruct c as [|k], c' as [|k']; simpl.
  - done.
  - intros H. by destruct (HP f g (S (S k')) Hf Hg).
  - intros H. by destruct (HP g f (S (S k)) Hg Hf).
  - intros H.
    apply (last_underscore f g) in H as [-> H%str_of_nat_inj];
      [|apply str_of_nat_no_underscore..].
    split; [done|]. lia.
Qed.

Lemma specified_name_numbered earlier name :
  Archive.specified_name earlier name = numbered name (Archive.seen name earlier).
Proof. done. Qed.

Lemma seen_cons_le name other earlier :
  (Archive.seen name earlier ≤ Archive.seen name (other :: earlier))%nat.
Proof.
  destruct (decide (other = name)) as [->|Hne].
  - rewrite seen_cons_eq. lia.
  - by rewrite seen_cons_ne.
Qed.

Lemma specified_names_NoDup (P : jsstring → Prop) names :
  (∀ f g k, P f → P g → f ≠ g ++ lit "_" ++ str_of_nat k) →
  ∀ earlier, Forall P names →
    NoDup (Archive.specified_names earlier names)
    ∧ ∀ x, x ∈ Archive.specified_names earlier names →
        ∃ g c, P g ∧ (Archive.seen g earlier ≤ c)%nat
               ∧ x = numbered g c ++ lit ".png".
Proof.
  intros HP. induction names as [|f rest IH]; intros earlier Hall.
  - split; [constructor|]. by intros x ?%elem_of_nil.
  - apply Forall_cons in Hall as [Hf Hall].
    destruct (IH (f :: earlier) Hall) as [Hnodup Hshape].
    cbn [Archive.specified_names]. rewrite specified_name_numbered. split.
    + constructor; [|done]. intros Hin.
      apply Hshape in Hin as (g & c & Hg & Hc & Heq).
      apply app_inv_tail in Heq.
      apply (numbered_inj P) in Heq as [<- <-]; [|done..].
      rewrite seen_cons_eq in Hc. lia.
    + intros x [->|Hin]%elem_of_cons.
      * exists f, (Archive.seen f earlier). by split_and!.
      * apply Hshape in Hin as (g & c & Hg & Hc & ->).
        exists g, c. split_and!; [done| |done].
        etrans; [apply seen_cons_le|exact Hc].
Qed.

(** X14. No entry of the archive overwrites another.  When no file name is a
    property name of [Object.prototype] and none is another file name with
    an underscore and a number after it, the names of the entries are all
    different. *)
Theorem archive_names_distinct (results : list GeneratedImage) :
  Forall (λ img, ¬ Archive.inherited (fileName img)) results →
  (∀ img img' k, img ∈ results → img' ∈ results →
     fileName img ≠ fileName img' ++ lit "_" ++ str_of_nat k) →
  NoDup (Archive.entryName <$> Archive.forEach ∅ results).
Proof.
  intros Hproto Hclash.
  rewrite (forEach_counting results ∅ []) by done.
  apply (specified_names_NoDup (λ f, ∃ img, img ∈ results ∧ fileName img = f)).
  - intros f g k (img & Himg & <-) (img' & Himg' & <-). by apply Hclash.
  - apply Forall_fmap, Forall_forall. intros img Himg. by exists img.
Qed.

Lemma archive_names_distinct_witness :
  Forall (λ img, ¬ Archive.inherited (fileName img))
    [Demo.image "a"; Demo.image "a"; Demo.image "a"]
  ∧ NoDup (Archive.entryName
             <$> Archive.forEach ∅ [Demo.image "a"; Demo.image "a"; Demo.image "a"]).
Proof.
  assert (¬ Archive.inherited (lit "a")) as Ha.
  { intros [H|H]; [discriminate H|]. apply list_elem_of_In in H.
    vm_compute in H. intuition discriminate. }
  assert (Forall (λ img, ¬ Archive.inherited (fileName img))
            [Demo.image "a"; Demo.image "a"; Demo.image "a"]) as H
    by (by repeat (apply Forall_cons; split; [exact Ha|])).
  split; [exact H|]. apply (archive_names_distinct _ H).
  intros img img' k Himg Himg' Heq.
  assert (fileName img = lit "a") as Hm.
  { repeat (apply elem_of_cons in Himg as [->|Himg]; [done|]).
    by apply elem_of_nil in Himg. }
  assert (fileName img' = lit "a") as Hn.
  { repeat (apply elem_of_cons in Himg' as [->|Himg']; [done|]).
    by apply elem_of_nil in Himg'. }
  rewrite Hm, Hn in Heq. apply (f_equal length) in Heq.
  rewrite !length_app in Heq. simpl in Heq. lia.
Defined.

(** The condition on the file names is needed: with the names [a], [a_2]
    and [a] the second and the third entry are both [a_2.png]. *)
Example archive_names_clash :
  Archive.entryName
    <$> Archive.forEach ∅ [Demo.image "a"; Demo.image "a_2"; Demo.image "a"]
  = [lit "a.png"; lit "a_2.png"; lit "a_2.png"].
Proof. by vm_compute. Qed.

(** ** The upload of a sheet *)



(** The handler on a sheet with the headers [Description], [Width] and
    [SKU]: [Width] is taken for the file names, since it contains [id]. *)
Example upload_width :
  (Upload.handleFileUpload Upload.ascii_lower
     (Upload.File (lit "catalog.xlsx")
        (Upload.Parsed Demo.two_rows [lit "Description"; lit "Width"; lit "SKU"]))
     (Upload.mkSheet [] [] (Some []) (Some [])) Demo.idle).1
  = Upload.mkSheet Demo.two_rows [lit "Description"; lit "Width"; lit "SKU"]
      (Some (lit "Description")) (Some (lit "Width")).
Proof. by vm_compute. Qed.

(** ** The image editor *)



(** X17. The request of the editor carries the data of the file.  When the
    reader gives the data URL of the file, with a media type and data
    without a comma, and the prompt is not blank, the request sent holds the
    data without the prefix of the URL, the type of the file and the
    prompt. *)
Theorem editor_request_round_trip (reply : Editor.api_reply) (st : Editor.State)
    (fileType mime d : jsstring) :
  (44 ∉ mime) → (44 ∉ d) → trim (Editor.prompt st) ≠ [] →
  Editor.sourceFile st
  = Some (Editor.mkFile fileType
            (Editor.ReadGives (lit "data:" ++ mime ++ lit ";base64," ++ d))) →
  Editor.fileToBase64
    (Editor.mkFile fileType
       (Editor.ReadGives (lit "data:" ++ mime ++ lit ";base64," ++ d)))
  = Editor.Resolved (Some d)
  ∧ (Editor.handleGenerate reply st).2
    = Some (Editor.mkRequest (Some d) fileType (Editor.prompt st)).
Proof.
  intros Hm Hd Hp Hfile.
  assert (Editor.fileToBase64
            (Editor.mkFile fileType
               (Editor.ReadGives (lit "data:" ++ mime ++ lit ";base64," ++ d)))
          = Editor.Resolved (Some d)) as Hread.
  { unfold Editor.fileToBase64. cbn [Editor.reading].
    by rewrite data_url_second. }
  split; [exact Hread|]. unfold Editor.handleGenerate. rewrite Hfile.
  destruct (trim (Editor.prompt st)); [done|]. cbn [truthy_str negb].
  rewrite Hread. by destruct (Editor.editImageWithGemini reply).
Qed.

Lemma editor_request_round_trip_witness :
  trim (lit "make it snow") ≠ []
  ∧ (Editor.handleGenerate (Editor.Rejects (Editor.mkThrown None))
       (Editor.mkState None
          (Some (Editor.mkFile (lit "image/png")
             (Editor.ReadGives (lit "data:" ++ lit "image/png" ++ lit ";base64,"
                                ++ lit "AAAA"))))
          None (lit "make it snow") false None)).2
    = Some (Editor.mkRequest (Some (lit "AAAA")) (lit "image/png")
              (lit "make it snow")).
Proof.
  assert (trim (lit "make it snow") ≠ []) as Hp by (by vm_compute).
  split; [exact Hp|].
  refine (proj2 (editor_request_round_trip (Editor.Rejects (Editor.mkThrown None))
    (Editor.mkState None
       (Some (Editor.mkFile (lit "image/png")
          (Editor.ReadGives (lit "data:" ++ lit "image/png" ++ lit ";base64,"
                             ++ lit "AAAA"))))
       None (lit "make it snow") false None)
    (lit "image/png") (lit "image/png") (lit "AAAA") _ _ Hp eq_refl));
    intros Hin; apply list_elem_of_In in Hin; vm_compute in Hin;
    intuition discriminate.
Defined.

(** ** The calls of a run *)

Lemma iteration_requests cfg w i row st :
  requests (trace (iteration cfg w i row st))
  = option_list (request_of cfg i row) ++ requests (trace st).
Proof.
  unfold request_of, iteration, stopGeneration.
  destruct (truthy_str (trim (productPrompt cfg row))); simpl; [|done].
  by destruct (stop_clicked (around w i)), (isProcessing (status st)),
    (Service.generateImageWithGemini _).
Qed.

Lemma iterate_requests cfg w rows :
  ∀ i st,
    requests (trace (iterate cfg w i rows st))
    = reverse (omap (λ r, r) (imap (λ j, request_of cfg (i + j)) rows))
      ++ requests (trace st).
Proof.
  induction rows as [|row rest IH]; intros i st; [done|].
  cbn [iterate imap]. rewrite IH, iteration_requests, Nat.add_0_r.
  rewrite (imap_ext ((λ j, request_of cfg (i + j)) ∘ S)
                    (λ j, request_of cfg (S i + j)) rest)
    by (intros j x _; simpl; f_equal; lia).
  destruct (request_of cfg i row) as [r|].
  - change (omap (λ r, r) (Some r :: ?l)) with (r :: omap (λ r, r) l).
    by rewrite reverse_cons, <- app_assoc.
  - done.
Qed.

(** X2. The calls of a run are, in the order of the rows, one for each row
    processed that has a prompt, none for the others and none for a row
    that is not counted as completed; what is sent is the prompt of the row
    composed with the baseline. *)
Theorem requests_of_run (cfg : Settings) (w : World) (st0 : Component) :
  excelData cfg ≠ [] → promptColumn cfg ≠ [] → filenameColumn cfg ≠ [] →
  reverse (requests (trace (handleStartBulkGeneration cfg w st0)))
  = omap (λ r, r) (imap (request_of cfg)
       (take (completed (status (handleStartBulkGeneration cfg w st0)))
             (excelData cfg))).
Proof.
  intros Hrows Hp Hf.
  destruct (handler_outcome cfg w st0 Hrows Hp Hf) as (_ & _ & -> & _).
  rewrite handler_guard by done.
  assert (requests (trace (loop cfg w 0 (excelData cfg) (started cfg st0)))
          = reverse (omap (λ r, r) (imap (request_of cfg)
              (take (match first_stop cfg w 0 (excelData cfg) with
                     | Some j => S j
                     | None => length (excelData cfg)
                     end) (excelData cfg))))) as Hloop.
  { destruct (first_stop cfg w 0 (excelData cfg)) as [j|] eqn:Hfs.
    - destruct (loop_stop cfg w _ 0 j (started cfg st0) Hfs eq_refl eq_refl)
        as [-> _].
      rewrite Nat.sub_0_r.
      assert (requests (trace (iterate cfg w 0 (take (S j) (excelData cfg))
                                 (started cfg st0)))
              = reverse (omap (λ r, r) (imap (request_of cfg)
                  (take (S j) (excelData cfg))))) as Hit
        by (by rewrite iterate_requests, app_nil_r).
      by case_bool_decide.
    - destruct (loop_all cfg w _ 0 (started cfg st0) Hfs eq_refl eq_refl)
        as [-> _].
      by rewrite firstn_all, iterate_requests, app_nil_r. }
  assert (∀ f b st, requests (trace (set_abortRef b (setStatus f st)))
                    = requests (trace st)) as H1 by done.
  assert (∀ f b st, requests (trace (setStatus f (set_abortRef b st)))
                    = requests (trace st)) as H2 by done.
  destruct (updaters w); [rewrite H1|rewrite H2];
    by rewrite Hloop, reverse_involutive.
Qed.

Lemma requests_of_run_witness :
  excelData (Demo.settings Demo.three_rows) ≠ []
  ∧ promptColumn (Demo.settings Demo.three_rows) ≠ []
  ∧ filenameColumn (Demo.settings Demo.three_rows) ≠ []
  ∧ reverse (requests (trace (handleStartBulkGeneration
               (Demo.settings Demo.three_rows) (Demo.world AtRender None) Demo.idle)))
    = [(0%nat, lit "studio lighting. a mug"); (2%nat, lit "studio lighting. a hat")].
Proof.
  assert (excelData (Demo.settings Demo.three_rows) ≠ []) as H1 by done.
  assert (promptColumn (Demo.settings Demo.three_rows) ≠ []) as H2 by done.
  assert (filenameColumn (Demo.settings Demo.three_rows) ≠ []) as H3 by done.
  split_and!; [exact H1|exact H2|exact H3|].
  etrans; [exact (requests_of_run _ (Demo.world AtRender None) Demo.idle H1 H2 H3)|].
  by vm_compute.
Defined.

(** ** Start, Reset and upload together *)

(** X7. When the sheet is empty or a column is not chosen, Start does
    nothing at all; so it does nothing after Reset, which empties the sheet
    and the results and leaves the headers and the columns chosen. *)
Theorem start_needs_a_sheet (cfg : Settings) (w : World) (st : Component)
    (sheet : Upload.Sheet) (baseline : jsstring) :
  (excelData cfg = [] ∨ promptColumn cfg = [] ∨ filenameColumn cfg = [] →
   handleStartBulkGeneration cfg w st = st)
  ∧ handleStartBulkGeneration
      (Upload.settings (Upload.reset sheet st).1 baseline) w (Upload.reset sheet st).2
    = (Upload.reset sheet st).2
  ∧ results (Upload.reset sheet st).2 = []
  ∧ logs (Upload.reset sheet st).2 = logs st
  ∧ Upload.headers (Upload.reset sheet st).1 = Upload.headers sheet
  ∧ Upload.promptCol (Upload.reset sheet st).1 = Upload.promptCol sheet
  ∧ Upload.filenameCol (Upload.reset sheet st).1 = Upload.filenameCol sheet.
Proof.
  split; [|done]. unfold handleStartBulkGeneration.
  intros [-> | [-> | ->]]; [done| |].
  - by rewrite orb_true_r.
  - by rewrite orb_true_r.
Qed.

Lemma start_needs_a_sheet_witness :
  promptColumn (mkSettings Demo.two_rows [] (lit "sku") []) = []
  ∧ handleStartBulkGeneration (mkSettings Demo.two_rows [] (lit "sku") [])
      (Demo.world AtCall None) Demo.idle = Demo.idle.
Proof.
  split; [done|].
  exact (proj1 (start_needs_a_sheet (mkSettings Demo.two_rows [] (lit "sku") [])
    (Demo.world AtCall None) Demo.idle (Upload.mkSheet [] [] None None) [])
    (or_intror (or_introl eq_refl))).
Defined.


(** ** Stop, whatever the last status says *)

(** X5. Stop is first clicked while the call for row [j] is in flight.
    Then the run finishes that row and goes no further: its results are
    those of a run on the rows up to [j] that nobody cancels, the last call
    made is the one for row [j], [completed] ends at [j + 1], the loop logs
    that it was stopped exactly when a row is left, and the flag is reset
    for the next run. *)
Theorem stop_finishes_current_row (cfg : Settings) (w : World) (st0 : Component)
    (j : nat) :
  excelData cfg ≠ [] → promptColumn cfg ≠ [] → filenameColumn cfg ≠ [] →
  first_stop cfg w 0 (excelData cfg) = Some j →
  completed (status (handleStartBulkGeneration cfg w st0)) = S j
  ∧ results (handleStartBulkGeneration cfg w st0)
    = results (handleStartBulkGeneration
                 (with_rows cfg (take (S j) (excelData cfg))) (quiet w) st0)
  ∧ head (calls (trace (handleStartBulkGeneration cfg w st0))) = Some j
  ∧ (lit "Process stopped by user."
       ∈ logged (trace (handleStartBulkGeneration cfg w st0))
     ↔ (S j < length (excelData cfg))%nat)
  ∧ isProcessing (status (handleStartBulkGeneration cfg w st0)) = false
  ∧ abortRef (handleStartBulkGeneration cfg w st0) = false.
Proof.
  intros Hrows Hp Hf Hfs.
  destruct (handler_outcome cfg w st0 Hrows Hp Hf)
    as (Hk & _ & Hc & Hproc & _ & Hab & Hres & Hcalls & Hlog).
  rewrite Hfs in Hk, Hc, Hres, Hcalls, Hlog.
  assert (take (S j) (excelData cfg) ≠ []) as Hne
    by (destruct (excelData cfg); done).
  destruct (handler_outcome (with_rows cfg (take (S j) (excelData cfg)))
              (quiet w) st0 Hne Hp Hf) as (_ & _ & _ & _ & _ & _ & Hq & _).
  simpl in Hq. rewrite first_stop_quiet, firstn_all in Hq.
  rewrite produced_all_with_rows, produced_all_quiet in Hq.
  destruct (first_stop_stops _ _ _ _ _ Hfs) as (row & Hrow & Hstops).
  rewrite Nat.sub_0_r in Hrow.
  apply andb_true_iff in Hstops as [Hflight _].
  split; [exact Hc|]. split; [by rewrite Hres, Hq|].
  split; [|by split_and!].
  rewrite Hcalls.
  rewrite (take_S_r _ j row Hrow).
  assert (∀ rows i, called cfg i (rows ++ [row])
                    = called cfg i rows ++ [(i + length rows)%nat]) as Hsnoc.
  { induction rows as [|r rows IH]; intros i; simpl.
    - rewrite Hflight. simpl. by rewrite Nat.add_0_r.
    - rewrite IH, <- app_assoc. do 3 f_equal. lia. }
  rewrite Hsnoc, reverse_app. simpl. f_equal.
  rewrite length_take. lia.
Qed.

Lemma stop_finishes_current_row_witness :
  first_stop (Demo.settings Demo.two_rows) (Demo.world AtRender (Some 0%nat)) 0
    (excelData (Demo.settings Demo.two_rows)) = Some 0%nat
  ∧ completed (status (Demo.cancelled AtRender 0)) = 1%nat.
Proof.
  assert (first_stop (Demo.settings Demo.two_rows)
            (Demo.world AtRender (Some 0%nat)) 0
            (excelData (Demo.settings Demo.two_rows)) = Some 0%nat) as H
    by (by vm_compute).
  split; [exact H|].
  exact (proj1 (stop_finishes_current_row (Demo.settings Demo.two_rows)
    (Demo.world AtRender (Some 0%nat)) Demo.idle 0%nat
    ltac:(done) ltac:(done) ltac:(done) H)).
Defined.
